(** * folly::Arena — block acquisition, limit accounting and merge

    A shallow embedding of [folly/memory/Arena-inl.h]:
    [Arena<Alloc>::Block::allocate], [Arena<Alloc>::allocateSlow] and
    [Arena<Alloc>::merge].

    Conventions.
    - [size_t] is a 64-bit unsigned integer, modelled as [Z] with every
      wrap-around written out ([SizeT.add], [SizeT.sub]).
    - [char*] values are addresses in [Z]; [nullptr] is [0].  Pointer
      arithmetic stays inside one block (or one past its end) and is plain
      addition.
    - A C++ function that may throw and that mutates [*this] is a
      computation [M S X]: it takes the state and returns either the thrown
      exception or the result, together with the state at that moment. *)

From Stdlib Require Import ZArith List Bool Lia.
Import ListNotations.
Open Scope Z_scope.

(** ** [size_t] arithmetic *)

Module SizeT.

Definition modulus : Z := 2 ^ 64.
Definition max : Z := modulus - 1.

Definition in_range (x : Z) : Prop := 0 <= x <= max.

Definition wrap (x : Z) : Z := x mod modulus.

(** [a + b] and [a - b] on [size_t]. *)
Definition add (a b : Z) : Z := wrap (a + b).
Definition sub (a b : Z) : Z := wrap (a - b).

(** Modelled from the spec: [folly::checked_add] is defined in
    folly/lang/CheckedMath.h, outside the file verified here.  "Overflow-checked
    size arithmetic should be a standalone primitive returning either a
    validated result or an explicit overflow signal — never an implicit
    wraparound."  [None] is the [false] return of
    [checked_add(&result, a, b)]. *)
Definition checked_add (a b : Z) : option Z :=
  if a + b <=? max then Some (a + b) else None.

End SizeT.

(** ** Exceptions and the state-and-exception monad *)

(** What a call can throw.  [allocateSlow] itself only ever throws
    [std::bad_alloc]; the backing allocator may throw [std::bad_alloc] or
    anything of its own, which is carried as an opaque code. *)
Inductive exception : Type :=
| std_bad_alloc : exception
| allocator_exception : Z -> exception.

Definition M (S X : Type) : Type := S -> (exception + X) * S.

Definition ret {S X : Type} (x : X) : M S X :=
  fun s => (inr x, s).

Definition throw_exception {S X : Type} (e : exception) : M S X :=
  fun s => (inl e, s).

Definition bind {S X Y : Type} (m : M S X) (k : X -> M S Y) : M S Y :=
  fun s =>
    match m s with
    | (inl e, s') => (inl e, s')
    | (inr x, s') => k x s'
    end.

Definition gets {S X : Type} (f : S -> X) : M S X :=
  fun s => (inr (f s), s).

Definition modify {S : Type} (f : S -> S) : M S unit :=
  fun s => (inr tt, f s).

Declare Scope arena_monad_scope.
Delimit Scope arena_monad_scope with am.
Notation "x <- m ;; k" := (bind m (fun x => k))
  (at level 61, m at next level, right associativity) : arena_monad_scope.
Notation "m ;; k" := (bind m (fun _ => k))
  (at level 61, right associativity) : arena_monad_scope.

(** ** The backing allocator *)

(** Modelled from the spec: the Backing Allocator is an external
    collaborator given only by its interface ([std::allocator_traits<Alloc>]
    and [ArenaAllocatorTraits<Alloc>]): "allocate(n) -> raw memory of >= n
    bytes, fails on exhaustion" and "goodSize(requestedBytes) ->
    suggestedBytes >= requestedBytes".  [alloc_allocate] returns the address
    of the memory or the exception thrown, and the allocator afterwards. *)
Class ArenaAllocatorTraits (Alloc : Type) : Type := {
  goodSize : Alloc -> Z -> Z;
  alloc_allocate : Z -> M Alloc Z
}.

(** The interface contract of [goodSize], as a property of an allocator. *)
Definition goodSize_sound (Alloc : Type) `{ArenaAllocatorTraits Alloc} : Prop :=
  forall (al : Alloc) (n : Z),
    SizeT.in_range n -> n <= goodSize al n <= SizeT.max.

(** An allocator that never rounds a request up
    (the default [ArenaAllocatorTraits]). *)
Definition no_slack (Alloc : Type) `{ArenaAllocatorTraits Alloc} : Prop :=
  forall (al : Alloc) (n : Z), goodSize al n = n.

(** Compile-time constants fixed by Arena.h, outside the file verified here:
    [sizeof(Block)] (the header in front of a block's data) and
    [Arena::kNoSizeLimit] (the value of [sizeLimit_] that means no limit).
    They are parameters of the development. *)
Class ArenaConstants : Type := {
  sizeof_Block : Z;
  kNoSizeLimit : Z
}.

(** ** boost::intrusive::slist, as far as the arena uses it *)

Module SList.
Section Ops.
Context {T : Type}.

Definition push_front (x : T) (l : list T) : list T := x :: l.
Definition push_back (x : T) (l : list T) : list T := l ++ [x].

(** [l.splice_after(l.before_begin(), other)]: all of [other] is linked in
    front of [l], and [other] is left empty. *)
Definition splice_after_before_begin (l other : list T) : list T * list T :=
  (other ++ l, []).

(** [l.clear()]: unlinks every element; no disposer runs. *)
Definition clear (l : list T) : list T := [].
End Ops.
End SList.

(** ** Blocks and the arena *)

Definition nullptr : Z := 0.

(** An element of [blocks_].  [block_addr] is the [Block*], the address the
    backing allocator returned.  The other two fields are ghost state that the
    C++ list does not store: [block_usable] is the size [Block::allocate]
    returned next to the pointer ([p.second]), and [block_big] records that
    the block was acquired by the [size > minBlockSize()] branch. *)
Record Block : Type := mkBlock {
  block_addr : Z;
  block_usable : Z;
  block_big : bool
}.

(** The state of an [Arena<Alloc>].  [alloc_] and [minBlockSize_] are the two
    halves of [allocAndSize_], read through [alloc()] and [minBlockSize()]. *)
Record Arena (Alloc : Type) : Type := mkArena {
  alloc_ : Alloc;
  minBlockSize_ : Z;
  blocks_ : list Block;
  ptr_ : Z;
  end_ : Z;
  totalAllocatedSize_ : Z;
  sizeLimit_ : Z
}.

Arguments mkArena {Alloc} _ _ _ _ _ _ _.
Arguments alloc_ {Alloc} _.
Arguments minBlockSize_ {Alloc} _.
Arguments blocks_ {Alloc} _.
Arguments ptr_ {Alloc} _.
Arguments end_ {Alloc} _.
Arguments totalAllocatedSize_ {Alloc} _.
Arguments sizeLimit_ {Alloc} _.

Section ArenaImpl.

Context {Alloc : Type} {traits : ArenaAllocatorTraits Alloc}.
Context {consts : ArenaConstants}.

(** Assignments to one member. *)
Definition set_alloc (al : Alloc) (a : Arena Alloc) : Arena Alloc :=
  mkArena al (minBlockSize_ a) (blocks_ a) (ptr_ a) (end_ a)
          (totalAllocatedSize_ a) (sizeLimit_ a).

Definition set_blocks (bs : list Block) (a : Arena Alloc) : Arena Alloc :=
  mkArena (alloc_ a) (minBlockSize_ a) bs (ptr_ a) (end_ a)
          (totalAllocatedSize_ a) (sizeLimit_ a).

Definition set_ptr (p : Z) (a : Arena Alloc) : Arena Alloc :=
  mkArena (alloc_ a) (minBlockSize_ a) (blocks_ a) p (end_ a)
          (totalAllocatedSize_ a) (sizeLimit_ a).

Definition set_end (e : Z) (a : Arena Alloc) : Arena Alloc :=
  mkArena (alloc_ a) (minBlockSize_ a) (blocks_ a) (ptr_ a) e
          (totalAllocatedSize_ a) (sizeLimit_ a).

Definition set_totalAllocatedSize (t : Z) (a : Arena Alloc) : Arena Alloc :=
  mkArena (alloc_ a) (minBlockSize_ a) (blocks_ a) (ptr_ a) (end_ a)
          t (sizeLimit_ a).

(** A computation on the allocator, run on the arena's [alloc()]. *)
Definition on_alloc {X : Type} (m : M Alloc X) : M (Arena Alloc) X :=
  fun a =>
    let (r, al') := m (alloc_ a) in (r, set_alloc al' a).

(** Modelled from the spec: [Block::start()] is declared in Arena.h; the
    usable data region starts right behind the header. *)
Definition Block_start (b : Z) : Z := b + sizeof_Block.

(** [Arena<Alloc>::Block::allocate(alloc, size, allowSlack)]: the pair of the
    new [Block*] and the usable size. *)
Definition Block_allocate (size : Z) (allowSlack : bool) : M Alloc (Z * Z) :=
  (let allocSize := SizeT.add sizeof_Block size in
   allocSize <- (if allowSlack
                 then gets (fun al => goodSize al allocSize)
                 else ret allocSize) ;;
   mem <- alloc_allocate allocSize ;;
   ret (mem, SizeT.sub allocSize sizeof_Block))%am.

(** [Arena<Alloc>::allocateSlow(size)].  The [assert(p.second >= size)]
    before the last assignment has no effect on the state and is left out;
    that it holds is lemma [allocateSlow_assert] below. *)
Definition allocateSlow (size : Z) : M (Arena Alloc) Z :=
  (minBlockSize <- gets minBlockSize_ ;;
   allocSize <- match SizeT.checked_add (Z.max size minBlockSize)
                                        sizeof_Block with
                | Some s => ret s
                | None => throw_exception std_bad_alloc
                end ;;
   sizeLimit <- gets sizeLimit_ ;;
   total <- gets totalAllocatedSize_ ;;
   (if negb (sizeLimit =? kNoSizeLimit)
       && (SizeT.sub sizeLimit total <? allocSize)
    then throw_exception std_bad_alloc
    else ret tt) ;;
   ps <- (if minBlockSize <? size then
            p <- on_alloc (Block_allocate size false) ;;
            let start := Block_start (fst p) in
            modify (fun a =>
              set_blocks
                (SList.push_back (mkBlock (fst p) (snd p) true) (blocks_ a))
                a) ;;
            ret (p, start)
          else
            p <- on_alloc (Block_allocate minBlockSize true) ;;
            let start := Block_start (fst p) in
            modify (fun a =>
              set_blocks
                (SList.push_front (mkBlock (fst p) (snd p) false) (blocks_ a))
                a) ;;
            modify (set_ptr (start + size)) ;;
            modify (set_end (start + snd p)) ;;
            ret (p, start)) ;;
   modify (fun a =>
     set_totalAllocatedSize
       (SizeT.add (totalAllocatedSize_ a)
                  (SizeT.add (snd (fst ps)) sizeof_Block))
       a) ;;
   ret (snd ps))%am.

(** [Arena<Alloc>::merge(Arena&& other)], on the pair (this, other). *)
Definition merge (this other : Arena Alloc) : Arena Alloc * Arena Alloc :=
  let (tb, ob) :=
    SList.splice_after_before_begin (blocks_ this) (blocks_ other) in
  let this := set_blocks tb this in
  let other := set_blocks ob other in
  let other := set_blocks (SList.clear (blocks_ other)) other in
  let other := set_end nullptr other in
  let other := set_ptr (end_ other) other in
  let this :=
    set_totalAllocatedSize
      (SizeT.add (totalAllocatedSize_ this) (totalAllocatedSize_ other))
      this in
  let other := set_totalAllocatedSize 0 other in
  (this, other).

(** Modelled from the spec: the constructor is declared in Arena.h.  A
    freshly constructed arena is empty: no blocks, [ptr]/[end] null, nothing
    accounted. *)
Definition new_Arena (al : Alloc) (minBlockSize sizeLimit : Z) : Arena Alloc :=
  mkArena al minBlockSize [] nullptr nullptr 0 sizeLimit.

(** Modelled from the spec: [Arena::allocate] is defined in Arena.h.  "Fast
    path: if ptr != null and end - ptr >= size, return ptr and advance
    ptr += size", otherwise the slow path. *)
Definition allocate (size : Z) : M (Arena Alloc) Z :=
  (p <- gets ptr_ ;;
   e <- gets end_ ;;
   if negb (p =? nullptr) && (size <=? e - p)
   then modify (set_ptr (p + size)) ;; ret p
   else allocateSlow size)%am.

(** Modelled from the spec: [Arena::totalSize] is defined in Arena.h:
    "totalSize() -> cumulative bytes acquired", the read-only view of
    [totalAllocatedSize]. *)
Definition totalSize (a : Arena Alloc) : Z := totalAllocatedSize_ a.

End ArenaImpl.

(** ** Derived notions used by the statements *)

Section Notions.

Context {Alloc : Type} {traits : ArenaAllocatorTraits Alloc}.
Context {consts : ArenaConstants}.

(** [max(size, minBlockSize()) + sizeof(Block)], before any check. *)
Definition allocSize_of (a : Arena Alloc) (size : Z) : Z :=
  Z.max size (minBlockSize_ a) + sizeof_Block.

(** The guard of the second [if] of [allocateSlow], as the code evaluates
    it: the subtraction is a [size_t] subtraction. *)
Definition limit_check_fails (a : Arena Alloc) (size : Z) : bool :=
  negb (sizeLimit_ a =? kNoSizeLimit)
  && (SizeT.sub (sizeLimit_ a) (totalAllocatedSize_ a) <? allocSize_of a size).

(** Both checks let the request through. *)
Definition passes_checks (a : Arena Alloc) (size : Z) : Prop :=
  allocSize_of a size <= SizeT.max /\ limit_check_fails a size = false.

(** What the arena looks like after a block was acquired. *)
Definition after_big (a : Arena Alloc) (al' : Alloc) (mem usable : Z)
  : Arena Alloc :=
  mkArena al' (minBlockSize_ a)
          (blocks_ a ++ [mkBlock mem usable true])
          (ptr_ a) (end_ a)
          (SizeT.add (totalAllocatedSize_ a) (SizeT.add usable sizeof_Block))
          (sizeLimit_ a).

Definition after_normal (a : Arena Alloc) (al' : Alloc) (mem usable size : Z)
  : Arena Alloc :=
  mkArena al' (minBlockSize_ a)
          (mkBlock mem usable false :: blocks_ a)
          (Block_start mem + size) (Block_start mem + usable)
          (SizeT.add (totalAllocatedSize_ a) (SizeT.add usable sizeof_Block))
          (sizeLimit_ a).

End Notions.

(** ** Sequences of operations and reachable states *)

Section Reach.

Context {Alloc : Type} {traits : ArenaAllocatorTraits Alloc}.
Context {consts : ArenaConstants}.

(** The arena after a sequence of [allocate] calls, whatever each call
    returned (a call that throws leaves the arena to the next call as it
    was at the throw). *)
Fixpoint allocate_all (sizes : list Z) (a : Arena Alloc) : Arena Alloc :=
  match sizes with
  | [] => a
  | size :: rest => allocate_all rest (snd (allocate size a))
  end.

(** The request the slow path sends to the backing allocator. *)
Definition backing_request (a : Arena Alloc) (size : Z) : Z :=
  if minBlockSize_ a <? size
  then SizeT.add sizeof_Block size
  else goodSize (alloc_ a) (SizeT.add sizeof_Block (minBlockSize_ a)).

(** [ptr]/[end] describe block [b]: they delimit the unused tail of its
    data region. *)
Definition describes (b : Block) (p e : Z) : Prop :=
  Block_start (block_addr b) <= p <= e
  /\ e = Block_start (block_addr b) + block_usable b.

(** [ptr]/[end] are null, or describe the front element of the list, which
    is a normal block. *)
Definition window_is_front (a : Arena Alloc) : Prop :=
  (ptr_ a = nullptr /\ end_ a = nullptr
   /\ Forall (fun b => block_big b = true) (blocks_ a))
  \/ exists b rest,
       blocks_ a = b :: rest /\ block_big b = false
       /\ describes b (ptr_ a) (end_ a).

(** [ptr]/[end] are null, or describe some normal block of the list. *)
Definition window_is_normal_block (a : Arena Alloc) : Prop :=
  (ptr_ a = nullptr /\ end_ a = nullptr)
  \/ exists b,
       In b (blocks_ a) /\ block_big b = false
       /\ describes b (ptr_ a) (end_ a).

(** States an arena can be in when only [allocate] is ever called on it. *)
Inductive reachable_by_allocate : Arena Alloc -> Prop :=
| rba_new (al : Alloc) (minBlockSize sizeLimit : Z) :
    0 <= minBlockSize ->
    reachable_by_allocate (new_Arena al minBlockSize sizeLimit)
| rba_allocate (a : Arena Alloc) (size : Z) :
    reachable_by_allocate a -> 0 <= size ->
    reachable_by_allocate (snd (allocate size a)).

(** States an arena can be in when [allocate] and [merge] are called, the
    arena being either side of a merge. *)
Inductive reachable : Arena Alloc -> Prop :=
| reach_new (al : Alloc) (minBlockSize sizeLimit : Z) :
    0 <= minBlockSize ->
    reachable (new_Arena al minBlockSize sizeLimit)
| reach_allocate (a : Arena Alloc) (size : Z) :
    reachable a -> 0 <= size ->
    reachable (snd (allocate size a))
| reach_merge_this (a b : Arena Alloc) :
    reachable a -> reachable b ->
    reachable (fst (merge a b))
| reach_merge_other (a b : Arena Alloc) :
    reachable a -> reachable b ->
    reachable (snd (merge a b)).

End Reach.

(** ** Two concrete backing allocators and a 64-bit target *)

(** A heap that hands out consecutive addresses from [heap_brk] until
    [heap_top], and throws [std::bad_alloc] when the request does not fit. *)
Record Heap : Type := mkHeap {
  heap_brk : Z;
  heap_top : Z
}.

Definition heap_allocate (n : Z) : M Heap Z :=
  fun h =>
    if heap_brk h + n <=? heap_top h
    then (inr (heap_brk h), mkHeap (heap_brk h + n) (heap_top h))
    else (inl std_bad_alloc, h).

(** No slack: [goodSize] is the identity, as in the default traits. *)
#[export] Instance Heap_traits : ArenaAllocatorTraits Heap := {
  goodSize := fun _ n => n;
  alloc_allocate := heap_allocate
}.

(** The same heap behind an allocator whose [goodSize] rounds a request up
    to the next multiple of 64 (a size-class allocator). *)
Record SlabHeap : Type := mkSlabHeap {
  slab_heap : Heap
}.

Definition round_up_64 (n : Z) : Z :=
  let r := (n + 63) / 64 * 64 in
  if r <=? SizeT.max then r else n.

(** Exhaustion is reported with the allocator's own exception. *)
Definition slab_allocate (n : Z) : M SlabHeap Z :=
  fun s =>
    match heap_allocate n (slab_heap s) with
    | (inl _, h) => (inl (allocator_exception 12), mkSlabHeap h)
    | (inr mem, h) => (inr mem, mkSlabHeap h)
    end.

#[export] Instance SlabHeap_traits : ArenaAllocatorTraits SlabHeap := {
  goodSize := fun _ n => round_up_64 n;
  alloc_allocate := slab_allocate
}.

(** [sizeof(Block)] is one list link, 8 bytes; [kNoSizeLimit] is 0. *)
#[export] Instance LP64 : ArenaConstants := {
  sizeof_Block := 8;
  kNoSizeLimit := 0
}.

(** ** A scenario: two arenas, one allocation each, then a merge *)

Module Scenario.

(** Recipient: [minBlockSize = 64], [sizeLimit = 100]. *)
Definition A0 : Arena Heap := new_Arena (mkHeap 4096 65536) 64 100.
(** Donor: [minBlockSize = 64], no limit. *)
Definition B0 : Arena Heap := new_Arena (mkHeap 131072 196608) 64 kNoSizeLimit.

Definition A1 : Arena Heap := snd (allocate 8 A0).
Definition B1 : Arena Heap := snd (allocate 8 B0).

Definition A2 : Arena Heap := fst (merge A1 B1).
Definition B2 : Arena Heap := snd (merge A1 B1).

(** An arena on the size-class allocator: [minBlockSize = 72],
    [sizeLimit = 100]. *)
Definition S0 : Arena SlabHeap :=
  new_Arena (mkSlabHeap (mkHeap 4096 65536)) 72 100.

(** An arena with [minBlockSize = 1] and [sizeLimit = 100] that has
    accounted 90 bytes, by one big allocation of 82 bytes. *)
Definition T0 : Arena Heap := new_Arena (mkHeap 4096 65536) 1 100.
Definition T1 : Arena Heap := snd (allocate 82 T0).

(** The same with [minBlockSize = 2]. *)
Definition U0 : Arena Heap := new_Arena (mkHeap 4096 65536) 2 100.
Definition U1 : Arena Heap := snd (allocate 82 U0).

(** An arena with no limit on a size-class allocator whose heap has only
    four bytes left. *)
Definition X0 : Arena SlabHeap :=
  new_Arena (mkSlabHeap (mkHeap 4096 4100)) 72 kNoSizeLimit.

End Scenario.

(** ** Teardown: [Block::deallocate] and [~Arena] *)

From Stdlib Require Import Permutation.

(** Modelled from the spec: the other half of the Backing Allocator
    interface, [std::allocator_traits<Alloc>::deallocate(alloc, p, n)]:
    "deallocate(ptr) reclaims previously allocated memory", each disposal
    being "assumed non-failing".  It maps the allocator to the allocator
    afterwards. *)
Class ArenaAllocatorRelease (Alloc : Type) : Type := {
  alloc_deallocate : Z -> Z -> Alloc -> Alloc
}.

Module SListDispose.
Section Ops.
Context {T S : Type}.

(** [l.pop_front_and_dispose(disposer)]: unlinks the front element and
    hands it to [disposer].  The list must not be empty; on an empty list
    the model does nothing. *)
Definition pop_front_and_dispose (disposer : T -> S -> S)
  (l : list T) (s : S) : list T * S :=
  match l with
  | [] => ([], s)
  | x :: rest => (rest, disposer x s)
  end.

Definition empty (l : list T) : bool :=
  match l with
  | [] => true
  | _ :: _ => false
  end.

End Ops.
End SListDispose.

Section TeardownImpl.

Context {Alloc : Type} {release : ArenaAllocatorRelease Alloc}.

(** [Arena<Alloc>::Block::deallocate(alloc)] on the block at address [b]:
    the header's destructor has no effect on the allocator; the memory goes
    back through [deallocate(alloc, this, 1)]. *)
Definition Block_deallocate (b : Z) (al : Alloc) : Alloc :=
  alloc_deallocate b 1 al.

(** One iteration of the loop of [~Arena]:
    [blocks_.pop_front_and_dispose(disposer)] with
    [disposer = [this](Block* b) { b->deallocate(this->alloc()); }]. *)
Definition dispose_front (a : Arena Alloc) : Arena Alloc :=
  let (rest, al') :=
    SListDispose.pop_front_and_dispose
      (fun b al => Block_deallocate (block_addr b) al)
      (blocks_ a) (alloc_ a) in
  mkArena al' (minBlockSize_ a) rest (ptr_ a) (end_ a)
          (totalAllocatedSize_ a) (sizeLimit_ a).

(** [while (!blocks_.empty()) blocks_.pop_front_and_dispose(disposer);]
    run for at most [fuel] iterations: [None] when the loop has not come
    to its end by then. *)
Fixpoint destructor_loop (fuel : nat) (a : Arena Alloc)
  : option (Arena Alloc) :=
  if SListDispose.empty (blocks_ a) then Some a
  else match fuel with
       | O => None
       | S fuel' => destructor_loop fuel' (dispose_front a)
       end.

(** The [deallocate] calls of a whole list, front to back. *)
Definition release_all (bs : list Block) (al : Alloc) : Alloc :=
  fold_left (fun al b => alloc_deallocate (block_addr b) 1 al) bs al.

(** The arena the destructor leaves behind: the list empty, every block
    given back, the other members as they were. *)
Definition torn_down (a : Arena Alloc) : Arena Alloc :=
  mkArena (release_all (blocks_ a) (alloc_ a)) (minBlockSize_ a) []
          (ptr_ a) (end_ a) (totalAllocatedSize_ a) (sizeLimit_ a).

End TeardownImpl.

(** ** Accounting *)

Section Accounting.

Context {Alloc : Type} {consts : ArenaConstants}.

(** The bytes the blocks of a list stand for: usable size plus header,
    block by block. *)
Definition accounted_bytes (bs : list Block) : Z :=
  fold_right (fun b acc => block_usable b + sizeof_Block + acc) 0 bs.

(** [totalAllocatedSize_] is the [size_t] value of the bytes of the blocks
    in the list. *)
Definition accounting_exact (a : Arena Alloc) : Prop :=
  totalAllocatedSize_ a = SizeT.wrap (accounted_bytes (blocks_ a)).

End Accounting.

(** ** A backing allocator that keeps books *)

(** A heap together with the addresses handed out and not yet given back,
    and the [deallocate] calls received, oldest first. *)
Record Ledger : Type := mkLedger {
  ledger_heap : Heap;
  ledger_live : list Z;
  ledger_released : list (Z * Z)
}.

Fixpoint remove_one (p : Z) (l : list Z) : list Z :=
  match l with
  | [] => []
  | x :: rest => if x =? p then rest else x :: remove_one p rest
  end.

Definition ledger_allocate (n : Z) : M Ledger Z :=
  fun g =>
    match heap_allocate n (ledger_heap g) with
    | (inl e, h) => (inl e, mkLedger h (ledger_live g) (ledger_released g))
    | (inr mem, h) =>
        (inr mem, mkLedger h (mem :: ledger_live g) (ledger_released g))
    end.

Definition ledger_deallocate (p n : Z) (g : Ledger) : Ledger :=
  mkLedger (ledger_heap g) (remove_one p (ledger_live g))
           (ledger_released g ++ [(p, n)]).

#[export] Instance Ledger_traits : ArenaAllocatorTraits Ledger := {
  goodSize := fun _ n => n;
  alloc_allocate := ledger_allocate
}.

#[export] Instance Ledger_release : ArenaAllocatorRelease Ledger := {
  alloc_deallocate := ledger_deallocate
}.

(** The addresses the ledger has out are the blocks of the list, and
    nothing has been given back. *)
Definition books_balanced (a : Arena Ledger) : Prop :=
  Permutation (ledger_live (alloc_ a)) (map block_addr (blocks_ a))
  /\ ledger_released (alloc_ a) = [].

Module MoreScenarios.

(** Two arenas on ledgers, one normal and one big allocation on the first,
    one normal allocation on the second. *)
Definition L0 : Arena Ledger :=
  new_Arena (mkLedger (mkHeap 4096 65536) [] []) 64 kNoSizeLimit.
Definition L1 : Arena Ledger := allocate_all [8; 100] L0.

Definition K0 : Arena Ledger :=
  new_Arena (mkLedger (mkHeap 131072 196608) [] []) 64 kNoSizeLimit.
Definition K1 : Arena Ledger := allocate_all [8] K0.

(** An arena whose total has run up to [SIZE_MAX] against a limit of
    100. *)
Definition W0 : Arena Heap :=
  mkArena (mkHeap 4096 65536) 64 [] nullptr nullptr SizeT.max 100.

End MoreScenarios.

(** * Proofs *)

(** ** Facts about [size_t] arithmetic *)

Module SizeTFacts.
Import SizeT.

Lemma modulus_pos : 0 < modulus.
Proof. reflexivity. Qed.

Lemma wrap_small x : in_range x -> wrap x = x.
Proof.
  unfold in_range, wrap, max. intros H.
  apply Z.mod_small. pose proof modulus_pos. lia.
Qed.

Lemma wrap_range x : in_range (wrap x).
Proof.
  unfold in_range, wrap, max.
  pose proof (Z.mod_pos_bound x modulus modulus_pos). lia.
Qed.

Lemma add_small a b : in_range (a + b) -> add a b = a + b.
Proof. apply wrap_small. Qed.

Lemma sub_small a b : in_range (a - b) -> sub a b = a - b.
Proof. apply wrap_small. Qed.

(** Unsigned subtraction below zero comes back as a huge value. *)
Lemma sub_underflow a b :
  in_range a -> in_range b -> a < b -> sub a b = a - b + modulus.
Proof.
  unfold in_range, sub, wrap, max. intros Ha Hb Hlt.
  pose proof modulus_pos.
  rewrite <- (Z.mod_add (a - b) 1 modulus) by lia.
  apply Z.mod_small. lia.
Qed.

Lemma checked_add_Some a b s :
  checked_add a b = Some s <-> a + b <= max /\ s = a + b.
Proof.
  unfold checked_add. destruct (Z.leb_spec (a + b) max); split.
  - intros [= <-]. lia.
  - intros [_ ->]. reflexivity.
  - discriminate.
  - lia.
Qed.

Lemma checked_add_None a b :
  checked_add a b = None <-> max < a + b.
Proof.
  unfold checked_add. destruct (Z.leb_spec (a + b) max); split;
    try discriminate; try lia; reflexivity.
Qed.

End SizeTFacts.

(** ** The five outcomes of the slow path *)

Section SlowPath.

Context {Alloc : Type} {traits : ArenaAllocatorTraits Alloc}.
Context {consts : ArenaConstants}.

Lemma allocateSlow_overflow (a : Arena Alloc) (size : Z) :
  SizeT.max < allocSize_of a size ->
  allocateSlow size a = (inl std_bad_alloc, a).
Proof.
  intros Hov. apply SizeTFacts.checked_add_None in Hov.
  unfold allocateSlow, bind, gets. simpl.
  unfold allocSize_of in Hov. rewrite Hov. reflexivity.
Qed.

Lemma allocateSlow_limit (a : Arena Alloc) (size : Z) :
  allocSize_of a size <= SizeT.max ->
  limit_check_fails a size = true ->
  allocateSlow size a = (inl std_bad_alloc, a).
Proof.
  intros Hfit Hlim.
  assert (Hadd : SizeT.checked_add (Z.max size (minBlockSize_ a)) sizeof_Block
                 = Some (allocSize_of a size))
    by (apply SizeTFacts.checked_add_Some; split; [exact Hfit | reflexivity]).
  unfold allocateSlow, bind, gets. simpl. rewrite Hadd. simpl.
  unfold limit_check_fails in Hlim. rewrite Hlim. reflexivity.
Qed.

(** Past the two checks the call is one call of [Block::allocate] followed by
    the bookkeeping of the branch taken. *)
Lemma allocateSlow_big (a : Arena Alloc) (size : Z) :
  passes_checks a size ->
  minBlockSize_ a < size ->
  allocateSlow size a =
  match alloc_allocate (SizeT.add sizeof_Block size) (alloc_ a) with
  | (inl e, al') => (inl e, set_alloc al' a)
  | (inr mem, al') =>
      (inr (Block_start mem),
       after_big a al' mem
         (SizeT.sub (SizeT.add sizeof_Block size) sizeof_Block))
  end.
Proof.
  intros [Hfit Hlim] Hbig.
  assert (Hadd : SizeT.checked_add (Z.max size (minBlockSize_ a)) sizeof_Block
                 = Some (allocSize_of a size))
    by (apply SizeTFacts.checked_add_Some; split; [exact Hfit | reflexivity]).
  unfold allocateSlow, bind, gets. simpl. rewrite Hadd. simpl.
  unfold limit_check_fails in Hlim. rewrite Hlim. simpl.
  apply Z.ltb_lt in Hbig. rewrite Hbig.
  unfold on_alloc, Block_allocate, bind, ret. simpl.
  destruct (alloc_allocate (SizeT.add sizeof_Block size) (alloc_ a))
    as [[e | mem] al']; reflexivity.
Qed.

Lemma allocateSlow_normal (a : Arena Alloc) (size : Z) :
  passes_checks a size ->
  size <= minBlockSize_ a ->
  let request :=
    goodSize (alloc_ a) (SizeT.add sizeof_Block (minBlockSize_ a)) in
  allocateSlow size a =
  match alloc_allocate request (alloc_ a) with
  | (inl e, al') => (inl e, set_alloc al' a)
  | (inr mem, al') =>
      (inr (Block_start mem),
       after_normal a al' mem (SizeT.sub request sizeof_Block) size)
  end.
Proof.
  intros [Hfit Hlim] Hsmall request.
  assert (Hadd : SizeT.checked_add (Z.max size (minBlockSize_ a)) sizeof_Block
                 = Some (allocSize_of a size))
    by (apply SizeTFacts.checked_add_Some; split; [exact Hfit | reflexivity]).
  unfold allocateSlow, bind, gets. simpl. rewrite Hadd. simpl.
  unfold limit_check_fails in Hlim. rewrite Hlim. simpl.
  assert (Hnb : (minBlockSize_ a <? size) = false) by (apply Z.ltb_ge; lia).
  rewrite Hnb.
  unfold on_alloc, Block_allocate, bind, ret, gets. simpl. fold request.
  destruct (alloc_allocate request (alloc_ a)) as [[e | mem] al'];
    reflexivity.
Qed.

(** The usable size the two branches get, once the sizes are [size_t]
    values and the overflow check has passed. *)
Lemma big_usable (size : Z) :
  0 <= size -> 0 <= sizeof_Block -> size + sizeof_Block <= SizeT.max ->
  SizeT.sub (SizeT.add sizeof_Block size) sizeof_Block = size.
Proof.
  intros Hs Hh Hfit.
  rewrite SizeTFacts.add_small by (unfold SizeT.in_range; lia).
  rewrite SizeTFacts.sub_small by (unfold SizeT.in_range; lia). lia.
Qed.

Lemma normal_usable (al : Alloc) (mbs : Z) :
  goodSize_sound Alloc ->
  0 <= mbs -> 0 <= sizeof_Block -> mbs + sizeof_Block <= SizeT.max ->
  let request := goodSize al (SizeT.add sizeof_Block mbs) in
  SizeT.sub request sizeof_Block = request - sizeof_Block
  /\ mbs <= request - sizeof_Block
  /\ request <= SizeT.max.
Proof.
  intros Hgs Hm Hh Hfit request.
  assert (Hreq : mbs + sizeof_Block <= request <= SizeT.max).
  { unfold request. rewrite SizeTFacts.add_small by (unfold SizeT.in_range; lia).
    pose proof (Hgs al (sizeof_Block + mbs)) as H.
    unfold SizeT.in_range in H. lia. }
  split; [| lia].
  apply SizeTFacts.sub_small. unfold SizeT.in_range. lia.
Qed.

End SlowPath.

(** ** Failures of the slow path *)

Section Failures.

Context {Alloc : Type} {traits : ArenaAllocatorTraits Alloc}.
Context {consts : ArenaConstants}.

(** Past the checks, whichever branch is taken: one backing allocation of
    [backing_request] bytes, whose failure ends the call. *)
Lemma allocateSlow_passes (a : Arena Alloc) (size : Z) :
  passes_checks a size ->
  allocateSlow size a =
  match alloc_allocate (backing_request a size) (alloc_ a) with
  | (inl e, al') => (inl e, set_alloc al' a)
  | (inr mem, al') =>
      (inr (Block_start mem),
       let usable := SizeT.sub (backing_request a size) sizeof_Block in
       if minBlockSize_ a <? size
       then after_big a al' mem usable
       else after_normal a al' mem usable size)
  end.
Proof.
  intros Hp. unfold backing_request.
  destruct (Z.ltb_spec (minBlockSize_ a) size) as [Hbig | Hsmall].
  - rewrite (allocateSlow_big a size Hp Hbig). reflexivity.
  - rewrite (allocateSlow_normal a size Hp Hsmall). reflexivity.
Qed.

(** Either the request overflows, or the limit check refuses it, or it
    passes both checks. *)
Lemma allocateSlow_cases (a : Arena Alloc) (size : Z) :
  SizeT.max < allocSize_of a size
  \/ (allocSize_of a size <= SizeT.max /\ limit_check_fails a size = true)
  \/ passes_checks a size.
Proof.
  unfold passes_checks.
  destruct (Z.le_gt_cases (allocSize_of a size) SizeT.max);
    destruct (limit_check_fails a size); auto with zarith.
Qed.

(** While [totalAllocatedSize_] is within the limit the [size_t]
    subtraction of the guard is the true difference. *)
Lemma limit_check_in_range (a : Arena Alloc) (size : Z) :
  sizeLimit_ a <> kNoSizeLimit ->
  0 <= totalAllocatedSize_ a <= sizeLimit_ a ->
  sizeLimit_ a <= SizeT.max ->
  limit_check_fails a size = true
  <-> sizeLimit_ a - totalAllocatedSize_ a < allocSize_of a size.
Proof.
  intros Hfin Htot Hlim. unfold limit_check_fails.
  rewrite SizeTFacts.sub_small by (unfold SizeT.in_range; lia).
  apply Z.eqb_neq in Hfin. rewrite Hfin. simpl. apply Z.ltb_lt.
Qed.

(** Once [totalAllocatedSize_] is above the limit the subtraction wraps, and
    the guard compares with a value [2^64] too large. *)
Lemma limit_check_once_exceeded (a : Arena Alloc) (size : Z) :
  sizeLimit_ a <> kNoSizeLimit ->
  SizeT.in_range (sizeLimit_ a) ->
  SizeT.in_range (totalAllocatedSize_ a) ->
  sizeLimit_ a < totalAllocatedSize_ a ->
  limit_check_fails a size = true
  <-> sizeLimit_ a - totalAllocatedSize_ a + SizeT.modulus
      < allocSize_of a size.
Proof.
  intros Hfin Hlim Htot Hover. unfold limit_check_fails.
  rewrite SizeTFacts.sub_underflow by assumption.
  apply Z.eqb_neq in Hfin. rewrite Hfin. simpl. apply Z.ltb_lt.
Qed.

(** C5. Whenever [max(size, minBlockSize) + sizeof(Block)] is not
    representable in [size_t], [allocateSlow] throws (the overflow failure,
    a [std::bad_alloc]) and the whole arena, allocator included, is exactly
    as before the call: no backing allocation was attempted, and
    [totalSize()], [ptr], [end] and the block list are unchanged. *)
Theorem C5_overflow_fails_with_arena_unchanged (a : Arena Alloc) (size : Z) :
  SizeT.max < Z.max size (minBlockSize_ a) + sizeof_Block ->
  SizeT.checked_add (Z.max size (minBlockSize_ a)) sizeof_Block = None
  /\ fst (allocateSlow size a) = inl std_bad_alloc
  /\ snd (allocateSlow size a) = a
  /\ alloc_ (snd (allocateSlow size a)) = alloc_ a
  /\ totalSize (snd (allocateSlow size a)) = totalSize a
  /\ ptr_ (snd (allocateSlow size a)) = ptr_ a
  /\ end_ (snd (allocateSlow size a)) = end_ a
  /\ blocks_ (snd (allocateSlow size a)) = blocks_ a.
Proof.
  intros Hov. split; [apply SizeTFacts.checked_add_None; exact Hov |].
  rewrite (allocateSlow_overflow a size Hov). simpl. repeat split.
Qed.

(** C8. A failure of the backing allocator during the slow path is what the
    call throws, unchanged, and [ptr], [end], [totalAllocatedSize] and the
    block list are as before the call.  More generally every call either
    throws and leaves these four untouched, or returns the start of one new
    block that is now in the list and accounted in [totalAllocatedSize]. *)
Theorem C8_backing_failure_propagates_no_partial_mutation
  (a : Arena Alloc) (size : Z) :
  (forall (e : exception) (al' : Alloc),
      passes_checks a size ->
      alloc_allocate (backing_request a size) (alloc_ a) = (inl e, al') ->
      allocateSlow size a = (inl e, set_alloc al' a))
  /\ match allocateSlow size a with
     | (inl _, a') =>
         ptr_ a' = ptr_ a /\ end_ a' = end_ a
         /\ totalAllocatedSize_ a' = totalAllocatedSize_ a
         /\ blocks_ a' = blocks_ a
     | (inr start, a') =>
         exists b : Block,
           start = Block_start (block_addr b)
           /\ (blocks_ a' = b :: blocks_ a \/ blocks_ a' = blocks_ a ++ [b])
           /\ totalAllocatedSize_ a' =
              SizeT.add (totalAllocatedSize_ a)
                        (SizeT.add (block_usable b) sizeof_Block)
     end.
Proof.
  split.
  - intros e al' Hp He. rewrite (allocateSlow_passes a size Hp), He.
    reflexivity.
  - destruct (allocateSlow_cases a size) as [Hov | [[Hfit Hlim] | Hp]].
    + rewrite (allocateSlow_overflow a size Hov). repeat split.
    + rewrite (allocateSlow_limit a size Hfit Hlim). repeat split.
    + rewrite (allocateSlow_passes a size Hp).
      destruct (alloc_allocate (backing_request a size) (alloc_ a))
        as [[e | mem] al'].
      * repeat split.
      * destruct (minBlockSize_ a <? size); eexists (mkBlock mem _ _); simpl;
          (split; [reflexivity | split; [auto | reflexivity]]).
Qed.

(** The two failures the slow path raises itself are one and the same
    exception. *)
Lemma own_failures_are_bad_alloc (a : Arena Alloc) (size : Z) :
  (SizeT.max < allocSize_of a size
   \/ (allocSize_of a size <= SizeT.max /\ limit_check_fails a size = true)) ->
  allocateSlow size a = (inl std_bad_alloc, a).
Proof.
  intros [Hov | [Hfit Hlim]].
  - apply allocateSlow_overflow; exact Hov.
  - apply allocateSlow_limit; assumption.
Qed.

(** C9, as the code has it. A request refused for overflow and a request
    refused by the limit check both throw [std::bad_alloc] to the immediate
    caller and leave the arena as it was: the caller sees the same exception
    in both cases. *)
Theorem C9_overflow_and_limit_both_throw_bad_alloc
  (a1 a2 : Arena Alloc) (size1 size2 : Z) :
  SizeT.max < allocSize_of a1 size1 ->
  allocSize_of a2 size2 <= SizeT.max ->
  limit_check_fails a2 size2 = true ->
  allocateSlow size1 a1 = (inl std_bad_alloc, a1)
  /\ allocateSlow size2 a2 = (inl std_bad_alloc, a2)
  /\ fst (allocateSlow size1 a1) = fst (allocateSlow size2 a2).
Proof.
  intros Hov Hfit Hlim.
  rewrite (allocateSlow_overflow a1 size1 Hov).
  rewrite (allocateSlow_limit a2 size2 Hfit Hlim).
  repeat split.
Qed.

End Failures.

(** ** Successful slow-path allocations *)

Section Successes.

Context {Alloc : Type} {traits : ArenaAllocatorTraits Alloc}.
Context {consts : ArenaConstants}.

(** The fast path of [allocate]. *)
Lemma allocate_fast (a : Arena Alloc) (size : Z) :
  ptr_ a <> nullptr -> size <= end_ a - ptr_ a ->
  allocate size a = (inr (ptr_ a), set_ptr (ptr_ a + size) a).
Proof.
  intros Hnn Hfit. unfold allocate, bind, gets, modify, ret. simpl.
  apply Z.eqb_neq in Hnn. rewrite Hnn.
  apply Z.leb_le in Hfit. rewrite Hfit. reflexivity.
Qed.

Lemma allocate_slow (a : Arena Alloc) (size : Z) :
  ptr_ a = nullptr \/ end_ a - ptr_ a < size ->
  allocate size a = allocateSlow size a.
Proof.
  intros H. unfold allocate, bind, gets. simpl.
  destruct H as [H | H].
  - apply Z.eqb_eq in H. rewrite H. reflexivity.
  - apply Z.leb_gt in H. rewrite H, andb_false_r. reflexivity.
Qed.

Lemma allocate_fast_or_slow (a : Arena Alloc) (size : Z) :
  (ptr_ a <> nullptr /\ size <= end_ a - ptr_ a)
  \/ (ptr_ a = nullptr \/ end_ a - ptr_ a < size).
Proof. unfold nullptr. lia. Qed.

(** C3. A request with [size > minBlockSize] that passes both checks asks
    the backing allocator for exactly [sizeof(Block) + size] bytes, whatever
    [goodSize] would suggest; when that succeeds the new block, of usable
    size exactly [size], is appended at the back of the list, [ptr] and [end]
    are what they were, and the call returns the start of the block.  Hence
    a small allocation before and one after the big one are served from the
    same window, one right behind the other. *)
Theorem C3_big_allocation_appends_and_keeps_window
  (a : Arena Alloc) (size : Z) (mem : Z) (al' : Alloc) :
  0 <= sizeof_Block ->
  passes_checks a size ->
  minBlockSize_ a < size ->
  0 <= minBlockSize_ a ->
  alloc_allocate (sizeof_Block + size) (alloc_ a) = (inr mem, al') ->
  backing_request a size = sizeof_Block + size
  /\ (exists a',
      allocateSlow size a = (inr (Block_start mem), a')
      /\ blocks_ a' = blocks_ a ++ [mkBlock mem size true]
      /\ ptr_ a' = ptr_ a
      /\ end_ a' = end_ a)
  /\ forall s1 s2 : Z,
       0 <= s1 -> 0 <= s2 ->
       0 < ptr_ a -> s1 + s2 <= end_ a - ptr_ a ->
       let a1 := snd (allocate s1 a) in
       let a2 := snd (allocateSlow size a1) in
       fst (allocate s1 a) = inr (ptr_ a)
       /\ fst (allocateSlow size a1) = inr (Block_start mem)
       /\ fst (allocate s2 a2) = inr (ptr_ a + s1)
       /\ ptr_ (snd (allocate s2 a2)) = ptr_ a + s1 + s2
       /\ end_ (snd (allocate s2 a2)) = end_ a.
Proof.
  intros Hh Hp Hbig Hm Hmem.
  assert (Hreq : SizeT.add sizeof_Block size = sizeof_Block + size).
  { destruct Hp as [Hfit _]. unfold allocSize_of in Hfit.
    apply SizeTFacts.add_small. unfold SizeT.in_range. lia. }
  assert (Hus : SizeT.sub (SizeT.add sizeof_Block size) sizeof_Block = size).
  { destruct Hp as [Hfit _]. unfold allocSize_of in Hfit.
    apply big_usable; lia. }
  split; [| split].
  - unfold backing_request. apply Z.ltb_lt in Hbig. rewrite Hbig. exact Hreq.
  - rewrite (allocateSlow_big a size Hp Hbig), Hreq, Hmem.
    rewrite <- Hreq, Hus. eexists. split; [reflexivity |].
    simpl. repeat split.
  - intros s1 s2 Hs1 Hs2 Hptr Hroom a1 a2.
    assert (Ha1 : allocate s1 a = (inr (ptr_ a), set_ptr (ptr_ a + s1) a))
      by (apply allocate_fast; unfold nullptr; lia).
    assert (Hp1 : passes_checks (set_ptr (ptr_ a + s1) a) size) by exact Hp.
    assert (Ha2 : allocateSlow size (set_ptr (ptr_ a + s1) a) =
                  (inr (Block_start mem),
                   after_big (set_ptr (ptr_ a + s1) a) al' mem size)).
    { rewrite (allocateSlow_big _ size Hp1 Hbig), Hreq. simpl.
      rewrite Hmem, <- Hreq, Hus. reflexivity. }
    subst a2 a1. rewrite Ha1. simpl. rewrite Ha2. simpl.
    rewrite allocate_fast by (simpl; unfold nullptr; lia).
    simpl. repeat split.
Qed.

(** C7. A request with [size <= minBlockSize] that passes both checks asks
    the backing allocator for [goodSize(sizeof(Block) + minBlockSize)] bytes;
    when that succeeds the new block has at least [minBlockSize] usable
    bytes and is at the front of the list, [ptr = blockStart + size],
    [end = blockStart + usableSize], [totalAllocatedSize] has grown by
    [usableSize + sizeof(Block)] (in [size_t] arithmetic, which is the plain
    sum whenever that is representable), and the call returns
    [blockStart]. *)
Theorem C7_normal_allocation_pushes_front_and_sets_window
  (a : Arena Alloc) (size : Z) (mem : Z) (al' : Alloc) :
  goodSize_sound Alloc ->
  0 <= sizeof_Block ->
  0 <= minBlockSize_ a ->
  passes_checks a size ->
  size <= minBlockSize_ a ->
  let request := goodSize (alloc_ a) (sizeof_Block + minBlockSize_ a) in
  let usableSize := request - sizeof_Block in
  alloc_allocate request (alloc_ a) = (inr mem, al') ->
  exists a',
    allocateSlow size a = (inr (Block_start mem), a')
    /\ minBlockSize_ a <= usableSize
    /\ blocks_ a' = mkBlock mem usableSize false :: blocks_ a
    /\ ptr_ a' = Block_start mem + size
    /\ end_ a' = Block_start mem + usableSize
    /\ totalAllocatedSize_ a' =
       SizeT.add (totalAllocatedSize_ a) (usableSize + sizeof_Block)
    /\ (SizeT.in_range (totalAllocatedSize_ a + (usableSize + sizeof_Block)) ->
        totalAllocatedSize_ a' =
        totalAllocatedSize_ a + (usableSize + sizeof_Block)).
Proof.
  intros Hgs Hh Hm Hp Hsmall request usableSize Hmem.
  assert (Hfit : minBlockSize_ a + sizeof_Block <= SizeT.max)
    by (destruct Hp as [Hfit _]; unfold allocSize_of in Hfit; lia).
  assert (Hreq : SizeT.add sizeof_Block (minBlockSize_ a)
                 = sizeof_Block + minBlockSize_ a)
    by (apply SizeTFacts.add_small; unfold SizeT.in_range; lia).
  destruct (normal_usable (alloc_ a) (minBlockSize_ a) Hgs Hm Hh Hfit)
    as (Hsub & Hge & Hle).
  rewrite Hreq in Hsub, Hge, Hle. fold request in Hsub, Hge, Hle.
  assert (Hsum : SizeT.add (SizeT.sub request sizeof_Block) sizeof_Block
                 = usableSize + sizeof_Block).
  { rewrite Hsub. apply SizeTFacts.add_small.
    unfold SizeT.in_range, usableSize. lia. }
  pose proof (allocateSlow_normal a size Hp Hsmall) as Hrun.
  simpl in Hrun. rewrite Hreq in Hrun. fold request in Hrun.
  rewrite Hmem in Hrun. rewrite Hrun.
  eexists. split; [reflexivity |]. simpl.
  rewrite Hsum, Hsub. fold usableSize.
  repeat split; try assumption.
  intros Hrange. apply SizeTFacts.add_small. exact Hrange.
Qed.

End Successes.

(** ** Merge *)

Section Merge.

Context {Alloc : Type} {traits : ArenaAllocatorTraits Alloc}.
Context {consts : ArenaConstants}.

Lemma merge_eq (this other : Arena Alloc) :
  merge this other =
  (mkArena (alloc_ this) (minBlockSize_ this)
           (blocks_ other ++ blocks_ this)
           (ptr_ this) (end_ this)
           (SizeT.add (totalAllocatedSize_ this) (totalAllocatedSize_ other))
           (sizeLimit_ this),
   mkArena (alloc_ other) (minBlockSize_ other) [] nullptr nullptr 0
           (sizeLimit_ other)).
Proof. reflexivity. Qed.

(** C4. After [A.merge(B)] the block list of [A] is the former list of [B]
    followed by the former list of [A]; [A.totalSize()] is the [size_t] sum
    of the two totals, which is their plain sum whenever that is
    representable; [B] is the empty arena — no blocks, [ptr] and [end] null,
    [totalAllocatedSize] and [totalSize()] zero — and neither allocator was
    touched, so nothing was disposed. *)
Theorem C4_merge_splices_adds_and_resets (A B : Arena Alloc) :
  let A' := fst (merge A B) in
  let B' := snd (merge A B) in
  blocks_ A' = blocks_ B ++ blocks_ A
  /\ totalAllocatedSize_ A'
     = SizeT.add (totalAllocatedSize_ A) (totalAllocatedSize_ B)
  /\ totalSize A' = SizeT.add (totalSize A) (totalSize B)
  /\ (SizeT.in_range (totalSize A + totalSize B) ->
      totalSize A' = totalSize A + totalSize B)
  /\ blocks_ B' = []
  /\ ptr_ B' = nullptr
  /\ end_ B' = nullptr
  /\ totalAllocatedSize_ B' = 0
  /\ totalSize B' = 0
  /\ B' = new_Arena (alloc_ B) (minBlockSize_ B) (sizeLimit_ B)
  /\ alloc_ A' = alloc_ A.
Proof.
  intros A' B'. subst A' B'. rewrite merge_eq. simpl.
  repeat split.
  intros Hrange. unfold totalSize. simpl.
  apply SizeTFacts.add_small. exact Hrange.
Qed.

(** C10. [A.merge(B)] leaves [ptr] and [end] of [A] as they were: [A]
    differs from before only in its block list and [totalAllocatedSize],
    and a request that fitted the window of [A] before the merge is served
    from it after the merge, at the same address. *)
Theorem C10_merge_keeps_recipient_window (A B : Arena Alloc) :
  let A' := fst (merge A B) in
  ptr_ A' = ptr_ A
  /\ end_ A' = end_ A
  /\ A' = set_totalAllocatedSize (totalAllocatedSize_ A')
            (set_blocks (blocks_ A') A)
  /\ forall size : Z,
       ptr_ A <> nullptr -> size <= end_ A - ptr_ A ->
       allocate size A' = (inr (ptr_ A), set_ptr (ptr_ A + size) A')
       /\ fst (allocate size A') = fst (allocate size A).
Proof.
  intros A'. subst A'. rewrite merge_eq. simpl.
  split; [reflexivity | split; [reflexivity | split; [reflexivity |]]].
  intros size Hnn Hfit. split.
  - rewrite allocate_fast by (simpl; assumption). reflexivity.
  - rewrite !allocate_fast by (simpl; assumption). reflexivity.
Qed.

End Merge.

(** ** Invariants over sequences of operations *)

Section Invariants.

Context {Alloc : Type} {traits : ArenaAllocatorTraits Alloc}.
Context {consts : ArenaConstants}.

Lemma set_alloc_same (a : Arena Alloc) : set_alloc (alloc_ a) a = a.
Proof. destruct a; reflexivity. Qed.

(** What one call of [allocate] can do to the arena. *)
Inductive allocate_outcome (a : Arena Alloc) (size : Z)
  : Arena Alloc -> Prop :=
| outcome_fast :
    ptr_ a <> nullptr -> size <= end_ a - ptr_ a ->
    allocate_outcome a size (set_ptr (ptr_ a + size) a)
| outcome_thrown (al' : Alloc) :
    allocate_outcome a size (set_alloc al' a)
| outcome_big (al' : Alloc) (mem : Z) :
    passes_checks a size -> minBlockSize_ a < size ->
    allocate_outcome a size
      (after_big a al' mem
         (SizeT.sub (SizeT.add sizeof_Block size) sizeof_Block))
| outcome_normal (al' : Alloc) (mem : Z) :
    passes_checks a size -> size <= minBlockSize_ a ->
    allocate_outcome a size
      (after_normal a al' mem
         (SizeT.sub
            (goodSize (alloc_ a) (SizeT.add sizeof_Block (minBlockSize_ a)))
            sizeof_Block)
         size).

Lemma allocateSlow_outcome (a : Arena Alloc) (size : Z) :
  allocate_outcome a size (snd (allocateSlow size a)).
Proof.
  destruct (allocateSlow_cases a size) as [Hov | [[Hfit Hlim] | Hp]].
  - rewrite (allocateSlow_overflow a size Hov). simpl.
    rewrite <- (set_alloc_same a) at 2. constructor.
  - rewrite (allocateSlow_limit a size Hfit Hlim). simpl.
    rewrite <- (set_alloc_same a) at 2. constructor.
  - destruct (Z.lt_ge_cases (minBlockSize_ a) size) as [Hbig | Hsmall].
    + rewrite (allocateSlow_big a size Hp Hbig).
      destruct (alloc_allocate _ (alloc_ a)) as [[e | mem] al']; simpl.
      * constructor.
      * constructor; assumption.
    + rewrite (allocateSlow_normal a size Hp Hsmall).
      destruct (alloc_allocate _ (alloc_ a)) as [[e | mem] al']; simpl.
      * constructor.
      * constructor; assumption.
Qed.

Lemma allocate_has_outcome (a : Arena Alloc) (size : Z) :
  allocate_outcome a size (snd (allocate size a)).
Proof.
  destruct (allocate_fast_or_slow a size) as [[Hnn Hfit] | Hslow].
  - rewrite (allocate_fast a size Hnn Hfit). simpl. constructor; assumption.
  - rewrite (allocate_slow a size Hslow). apply allocateSlow_outcome.
Qed.

Lemma outcome_minBlockSize (a a' : Arena Alloc) (size : Z) :
  allocate_outcome a size a' -> minBlockSize_ a' = minBlockSize_ a.
Proof. destruct 1; reflexivity. Qed.

Lemma outcome_sizeLimit (a a' : Arena Alloc) (size : Z) :
  allocate_outcome a size a' -> sizeLimit_ a' = sizeLimit_ a.
Proof. destruct 1; reflexivity. Qed.

(** The normal block is large enough for the request it was acquired
    for. *)
Lemma normal_block_holds_request (a : Arena Alloc) (size : Z) :
  goodSize_sound Alloc ->
  0 <= sizeof_Block -> 0 <= minBlockSize_ a ->
  passes_checks a size -> size <= minBlockSize_ a ->
  size <= SizeT.sub
            (goodSize (alloc_ a) (SizeT.add sizeof_Block (minBlockSize_ a)))
            sizeof_Block.
Proof.
  intros Hgs Hh Hm [Hfit _] Hsmall. unfold allocSize_of in Hfit.
  destruct (normal_usable (alloc_ a) (minBlockSize_ a) Hgs Hm Hh)
    as (Hsub & Hge & _); lia.
Qed.

(** The [assert(p.second >= size)] of [allocateSlow] holds in both
    branches. *)
Lemma allocateSlow_assert (a : Arena Alloc) (size : Z) :
  goodSize_sound Alloc ->
  0 <= sizeof_Block -> 0 <= minBlockSize_ a -> 0 <= size ->
  passes_checks a size ->
  size <= SizeT.sub (backing_request a size) sizeof_Block.
Proof.
  intros Hgs Hh Hm Hs Hp. unfold backing_request.
  destruct (Z.ltb_spec (minBlockSize_ a) size) as [Hbig | Hsmall].
  - destruct Hp as [Hfit _]. unfold allocSize_of in Hfit.
    rewrite big_usable by lia. apply Z.le_refl.
  - apply normal_block_holds_request; assumption.
Qed.

Lemma outcome_window_is_front (a a' : Arena Alloc) (size : Z) :
  goodSize_sound Alloc ->
  0 <= sizeof_Block -> 0 <= minBlockSize_ a -> 0 <= size ->
  allocate_outcome a size a' ->
  window_is_front a -> window_is_front a'.
Proof.
  intros Hgs Hh Hm Hs Hout Hw.
  destruct Hout as [Hnn Hfit | al' | al' mem Hp Hbig | al' mem Hp Hsmall].
  - destruct Hw as [(Hnull & _) | (b & rest & Hb & Hk & Hlo & He)];
      [contradiction |].
    right. exists b, rest. unfold describes. simpl.
    repeat split; try assumption; lia.
  - exact Hw.
  - destruct Hw as [(Hp0 & He0 & Hall) | (b & rest & Hb & Hk & Hd)].
    + left. simpl. repeat split; try assumption.
      apply Forall_app. split; [assumption |].
      constructor; [reflexivity | constructor].
    + right. exists b, (rest ++ [mkBlock mem
        (SizeT.sub (SizeT.add sizeof_Block size) sizeof_Block) true]).
      simpl. rewrite Hb. split; [reflexivity | split; [exact Hk | exact Hd]].
  - right. eexists _, (blocks_ a). simpl.
    split; [reflexivity | split; [reflexivity |]].
    pose proof (normal_block_holds_request a size Hgs Hh Hm Hp Hsmall).
    unfold describes. simpl. repeat split; lia.
Qed.

Lemma outcome_window_is_normal_block (a a' : Arena Alloc) (size : Z) :
  goodSize_sound Alloc ->
  0 <= sizeof_Block -> 0 <= minBlockSize_ a -> 0 <= size ->
  allocate_outcome a size a' ->
  window_is_normal_block a -> window_is_normal_block a'.
Proof.
  intros Hgs Hh Hm Hs Hout Hw.
  destruct Hout as [Hnn Hfit | al' | al' mem Hp Hbig | al' mem Hp Hsmall].
  - destruct Hw as [(Hnull & _) | (b & Hin & Hk & Hlo & He)];
      [contradiction |].
    right. exists b. unfold describes. simpl.
    repeat split; try assumption; lia.
  - exact Hw.
  - destruct Hw as [Hnull | (b & Hin & Hk & Hd)].
    + left. exact Hnull.
    + right. exists b. simpl.
      split; [apply in_or_app; left; exact Hin | split; [exact Hk | exact Hd]].
  - right. eexists. simpl.
    split; [left; reflexivity | split; [reflexivity |]].
    pose proof (normal_block_holds_request a size Hgs Hh Hm Hp Hsmall).
    unfold describes. simpl. repeat split; lia.
Qed.

(** C2, as the code has it. On an arena that has only served [allocate]
    calls, [ptr]/[end] are null or describe the front element of the block
    list, a normal block.  Once merges are allowed, [ptr]/[end] are null or
    describe a normal block that is in the arena's block list, never a big
    one; that block need not be at the front. *)
Theorem C2_window_describes_a_normal_block :
  goodSize_sound Alloc ->
  0 <= sizeof_Block ->
  (forall a : Arena Alloc, reachable_by_allocate a -> window_is_front a)
  /\ (forall a : Arena Alloc, reachable a -> window_is_normal_block a).
Proof.
  intros Hgs Hh. split.
  - intros a Hr.
    enough (0 <= minBlockSize_ a /\ window_is_front a) by tauto.
    induction Hr as [al mbs lim Hm | a size Hr [IHm IHw] Hs].
    + split; [exact Hm |]. left. simpl. repeat split. constructor.
    + pose proof (allocate_has_outcome a size) as Hout. split.
      * rewrite (outcome_minBlockSize _ _ _ Hout). exact IHm.
      * exact (outcome_window_is_front _ _ _ Hgs Hh IHm Hs Hout IHw).
  - intros a Hr.
    enough (0 <= minBlockSize_ a /\ window_is_normal_block a) by tauto.
    induction Hr as [al mbs lim Hm | a size Hr [IHm IHw] Hs
                    | a b Hra [IHma IHwa] Hrb [IHmb IHwb]
                    | a b Hra [IHma IHwa] Hrb [IHmb IHwb]].
    + split; [exact Hm |]. left. simpl. split; reflexivity.
    + pose proof (allocate_has_outcome a size) as Hout. split.
      * rewrite (outcome_minBlockSize _ _ _ Hout). exact IHm.
      * exact (outcome_window_is_normal_block _ _ _ Hgs Hh IHm Hs Hout IHw).
    + rewrite merge_eq. simpl. split; [exact IHma |].
      destruct IHwa as [Hnull | (blk & Hin & Hk & Hd)].
      * left. exact Hnull.
      * right. exists blk. simpl.
        split; [apply in_or_app; right; exact Hin
               | split; [exact Hk | exact Hd]].
    + rewrite merge_eq. simpl. split; [exact IHmb |].
      left. split; reflexivity.
Qed.

End Invariants.

(** ** The size limit *)

Section Limit.

Context {Alloc : Type} {traits : ArenaAllocatorTraits Alloc}.
Context {consts : ArenaConstants}.

(** Without slack the slow path asks for, and accounts, exactly the size
    the limit check looked at. *)
Lemma no_slack_request (a : Arena Alloc) (size : Z) :
  no_slack Alloc ->
  0 <= sizeof_Block -> 0 <= minBlockSize_ a -> 0 <= size ->
  allocSize_of a size <= SizeT.max ->
  backing_request a size = allocSize_of a size
  /\ SizeT.add (SizeT.sub (backing_request a size) sizeof_Block) sizeof_Block
     = allocSize_of a size.
Proof.
  intros Hns Hh Hm Hs Hfit.
  assert (Hreq : backing_request a size = allocSize_of a size).
  { unfold backing_request, allocSize_of in *.
    destruct (Z.ltb_spec (minBlockSize_ a) size).
    - rewrite SizeTFacts.add_small by (unfold SizeT.in_range; lia). lia.
    - rewrite Hns.
      rewrite SizeTFacts.add_small by (unfold SizeT.in_range; lia). lia. }
  split; [exact Hreq |]. rewrite Hreq. unfold allocSize_of in *.
  rewrite SizeTFacts.sub_small by (unfold SizeT.in_range; lia).
  rewrite SizeTFacts.add_small by (unfold SizeT.in_range; lia). lia.
Qed.

Lemma passes_checks_within_limit (a : Arena Alloc) (size : Z) :
  sizeLimit_ a <> kNoSizeLimit ->
  0 <= totalAllocatedSize_ a <= sizeLimit_ a ->
  sizeLimit_ a <= SizeT.max ->
  passes_checks a size ->
  totalAllocatedSize_ a + allocSize_of a size <= sizeLimit_ a.
Proof.
  intros Hfin Htot Hlim [Hfit Hpass].
  pose proof (limit_check_in_range a size Hfin Htot Hlim) as Hiff.
  destruct (Z.le_gt_cases (allocSize_of a size)
                          (sizeLimit_ a - totalAllocatedSize_ a)) as [H | H];
    [lia |].
  apply Hiff in H. congruence.
Qed.

Lemma outcome_total_within_limit (a a' : Arena Alloc) (size : Z) :
  no_slack Alloc ->
  0 <= sizeof_Block -> 0 <= minBlockSize_ a -> 0 <= size ->
  sizeLimit_ a <> kNoSizeLimit -> sizeLimit_ a <= SizeT.max ->
  0 <= totalAllocatedSize_ a <= sizeLimit_ a ->
  allocate_outcome a size a' ->
  0 <= totalAllocatedSize_ a' <= sizeLimit_ a.
Proof.
  intros Hns Hh Hm Hs Hfin Hlim Htot Hout.
  destruct Hout as [Hnn Hfit | al' | al' mem Hp Hbig | al' mem Hp Hsmall];
    try exact Htot.
  - pose proof (passes_checks_within_limit a size Hfin Htot Hlim Hp) as Hle.
    destruct Hp as [Hfit _].
    destruct (no_slack_request a size Hns Hh Hm Hs Hfit) as [Hreq Hacc].
    unfold backing_request in Hreq, Hacc.
    apply Z.ltb_lt in Hbig. rewrite Hbig in Hreq, Hacc.
    simpl. rewrite Hacc.
    assert (0 <= allocSize_of a size) by (unfold allocSize_of; lia).
    rewrite SizeTFacts.add_small by (unfold SizeT.in_range; lia). lia.
  - pose proof (passes_checks_within_limit a size Hfin Htot Hlim Hp) as Hle.
    destruct Hp as [Hfit _].
    destruct (no_slack_request a size Hns Hh Hm Hs Hfit) as [Hreq Hacc].
    unfold backing_request in Hreq, Hacc.
    assert (Hnb : (minBlockSize_ a <? size) = false) by (apply Z.ltb_ge; lia).
    rewrite Hnb in Hreq, Hacc.
    simpl. rewrite Hacc.
    assert (0 <= allocSize_of a size) by (unfold allocSize_of; lia).
    rewrite SizeTFacts.add_small by (unfold SizeT.in_range; lia). lia.
Qed.

Lemma allocate_all_within_limit (sizes : list Z) (a : Arena Alloc) :
  no_slack Alloc ->
  0 <= sizeof_Block -> 0 <= minBlockSize_ a ->
  Forall (fun size => 0 <= size) sizes ->
  sizeLimit_ a <> kNoSizeLimit -> sizeLimit_ a <= SizeT.max ->
  0 <= totalAllocatedSize_ a <= sizeLimit_ a ->
  0 <= totalAllocatedSize_ (allocate_all sizes a) <= sizeLimit_ a.
Proof.
  intros Hns Hh. revert a.
  induction sizes as [| size rest IH]; intros a Hm Hall Hfin Hlim Htot.
  - exact Htot.
  - inversion Hall as [| ? ? Hs Hrest]; subst. simpl.
    pose proof (allocate_has_outcome a size) as Hout.
    rewrite <- (outcome_sizeLimit _ _ _ Hout).
    apply IH.
    + rewrite (outcome_minBlockSize _ _ _ Hout). exact Hm.
    + exact Hrest.
    + rewrite (outcome_sizeLimit _ _ _ Hout). exact Hfin.
    + rewrite (outcome_sizeLimit _ _ _ Hout). exact Hlim.
    + rewrite (outcome_sizeLimit _ _ _ Hout).
      exact (outcome_total_within_limit _ _ _ Hns Hh Hm Hs Hfin Hlim Htot Hout).
Qed.

(** C1, as the code has it. On a backing allocator without slack
    ([goodSize(n) = n]) an arena constructed with a finite [sizeLimit] never
    has [totalAllocatedSize] above [sizeLimit], after any sequence of
    [allocate] calls.  And on such an arena with [sizeLimit = L] and
    [totalAllocatedSize = L - 10], a slow-path request whose new block needs
    [n <= 10] bytes, header included, succeeds when the backing allocator
    does and leaves [totalSize() = L - 10 + n], which is [L] exactly when
    [n = 10]. *)
Theorem C1_sizeLimit_respected_without_slack :
  no_slack Alloc ->
  0 <= sizeof_Block ->
  (forall (al : Alloc) (minBlockSize sizeLimit : Z) (sizes : list Z),
      sizeLimit <> kNoSizeLimit -> 0 <= sizeLimit <= SizeT.max ->
      0 <= minBlockSize ->
      Forall (fun size => 0 <= size) sizes ->
      totalAllocatedSize_
        (allocate_all sizes (new_Arena al minBlockSize sizeLimit))
      <= sizeLimit)
  /\ (forall (a : Arena Alloc) (size mem : Z) (al' : Alloc),
      sizeLimit_ a <> kNoSizeLimit -> sizeLimit_ a <= SizeT.max ->
      totalAllocatedSize_ a = sizeLimit_ a - 10 ->
      0 <= totalAllocatedSize_ a ->
      0 <= size -> 0 <= minBlockSize_ a ->
      allocSize_of a size <= 10 ->
      alloc_allocate (allocSize_of a size) (alloc_ a) = (inr mem, al') ->
      exists a',
        allocateSlow size a = (inr (Block_start mem), a')
        /\ totalSize a' = sizeLimit_ a - 10 + allocSize_of a size
        /\ totalSize a' <= sizeLimit_ a
        /\ (allocSize_of a size = 10 -> totalSize a' = sizeLimit_ a)).
Proof.
  intros Hns Hh. split.
  - intros al mbs lim sizes Hfin Hlim Hm Hall.
    pose proof (allocate_all_within_limit sizes (new_Arena al mbs lim)
                  Hns Hh Hm Hall Hfin) as H.
    simpl in H. apply H; lia.
  - intros a size mem al' Hfin Hlim Htot Hpos Hs Hm Hn Hmem.
    assert (Hn0 : 0 <= allocSize_of a size) by (unfold allocSize_of; lia).
    assert (Hfit : allocSize_of a size <= SizeT.max) by lia.
    assert (Hp : passes_checks a size).
    { split; [exact Hfit |].
      destruct (limit_check_fails a size) eqn:Hc; [| reflexivity].
      apply limit_check_in_range in Hc; lia. }
    destruct (no_slack_request a size Hns Hh Hm Hs Hfit) as [Hreq Hacc].
    assert (Htotal : SizeT.add (totalAllocatedSize_ a) (allocSize_of a size)
                     = sizeLimit_ a - 10 + allocSize_of a size).
    { rewrite SizeTFacts.add_small by (unfold SizeT.in_range; lia). lia. }
    rewrite (allocateSlow_passes a size Hp), Hreq, Hmem.
    rewrite Hreq in Hacc.
    eexists. split; [reflexivity |].
    assert (Hts : totalSize
                    (if minBlockSize_ a <? size
                     then after_big a al' mem
                            (SizeT.sub (allocSize_of a size) sizeof_Block)
                     else after_normal a al' mem
                            (SizeT.sub (allocSize_of a size) sizeof_Block)
                            size)
                  = sizeLimit_ a - 10 + allocSize_of a size).
    { destruct (minBlockSize_ a <? size); unfold totalSize; simpl;
        rewrite Hacc; exact Htotal. }
    cbv zeta. rewrite Hts. split; [reflexivity | split; lia].
Qed.

End Limit.

(** ** Concrete runs *)

(** Closed arithmetic facts are decided by evaluation. *)
Ltac by_evaluation :=
  vm_compute; first [reflexivity | discriminate | intro; discriminate].

Lemma Heap_no_slack : no_slack Heap.
Proof. intros al n. reflexivity. Qed.

Lemma Heap_goodSize_sound : goodSize_sound Heap.
Proof.
  intros al n [Hlo Hhi]. simpl. split; [apply Z.le_refl | exact Hhi].
Qed.

Lemma round_up_64_sound (n : Z) :
  SizeT.in_range n -> n <= round_up_64 n <= SizeT.max.
Proof.
  intros [Hlo Hhi]. unfold round_up_64.
  destruct (Z.leb_spec ((n + 63) / 64 * 64) SizeT.max) as [Hle | Hgt].
  - split; [| exact Hle].
    pose proof (Z.div_mod (n + 63) 64 ltac:(lia)) as Hdm.
    pose proof (Z.mod_pos_bound (n + 63) 64 ltac:(lia)) as Hb. lia.
  - lia.
Qed.

Lemma SlabHeap_goodSize_sound : goodSize_sound SlabHeap.
Proof. intros al n Hn. simpl. apply round_up_64_sound. exact Hn. Qed.

Lemma A1_reachable_by_allocate : reachable_by_allocate Scenario.A1.
Proof.
  unfold Scenario.A1, Scenario.A0.
  apply rba_allocate; [apply rba_new |]; by_evaluation.
Qed.

Lemma A2_reachable : reachable Scenario.A2.
Proof.
  unfold Scenario.A2, Scenario.A1, Scenario.B1, Scenario.A0, Scenario.B0.
  apply reach_merge_this;
    (apply reach_allocate; [apply reach_new |]; by_evaluation).
Qed.

(** While [totalAllocatedSize] is within the limit, a request that would
    take it past the limit is refused and the arena is left as it was. *)
Lemma limit_refuses_while_within_limit
  {Alloc : Type} {traits : ArenaAllocatorTraits Alloc}
  {consts : ArenaConstants} (a : Arena Alloc) (size : Z) :
  sizeLimit_ a <> kNoSizeLimit ->
  0 <= totalAllocatedSize_ a <= sizeLimit_ a ->
  sizeLimit_ a <= SizeT.max ->
  allocSize_of a size <= SizeT.max ->
  sizeLimit_ a - totalAllocatedSize_ a < allocSize_of a size ->
  allocateSlow size a = (inl std_bad_alloc, a).
Proof.
  intros Hfin Htot Hlim Hfit Hover.
  apply allocateSlow_limit; [exact Hfit |].
  apply limit_check_in_range; assumption.
Qed.

(** C6, at a state where the code departs from it. Arena [A2] is reached by
    one allocation on each of two arenas and a merge; its limit is 100 and
    it accounts 144 bytes.  A request of 60 bytes needs a block of 72 bytes,
    and [72 > 100 - 144]; but the guard subtracts in [size_t], gets
    [2^64 - 44], and lets the request through: the call returns memory and
    the arena accounts 216 bytes. *)
Theorem C6_limit_guard_wraps_once_total_exceeds_limit :
  reachable Scenario.A2
  /\ sizeLimit_ Scenario.A2 = 100
  /\ sizeLimit_ Scenario.A2 <> kNoSizeLimit
  /\ totalAllocatedSize_ Scenario.A2 = 144
  /\ allocSize_of Scenario.A2 60 = 72
  /\ sizeLimit_ Scenario.A2 - totalAllocatedSize_ Scenario.A2
     < allocSize_of Scenario.A2 60
  /\ SizeT.sub (sizeLimit_ Scenario.A2) (totalAllocatedSize_ Scenario.A2)
     = SizeT.modulus - 44
  /\ limit_check_fails Scenario.A2 60 = false
  /\ allocate 60 Scenario.A2 = allocateSlow 60 Scenario.A2
  /\ fst (allocateSlow 60 Scenario.A2) = inr 4176
  /\ totalAllocatedSize_ (snd (allocateSlow 60 Scenario.A2)) = 216
  /\ sizeLimit_ (snd (allocateSlow 60 Scenario.A2)) = 100.
Proof.
  split; [exact A2_reachable |].
  repeat split; by_evaluation.
Qed.

(** C1 refuted as stated. (1) With a [goodSize] that rounds up, the first
    allocation on a fresh arena of limit 100 is checked at 80 bytes, takes
    128, and leaves [totalAllocatedSize = 128 > 100].  (2) With limit 100
    and 90 bytes accounted, a request whose block needs 9 bytes succeeds
    and leaves [totalSize() = 99], not 100. *)
Lemma C1_counterexample :
  (sizeLimit_ Scenario.S0 = 100
   /\ sizeLimit_ Scenario.S0 <> kNoSizeLimit
   /\ totalAllocatedSize_ Scenario.S0 = 0
   /\ allocSize_of Scenario.S0 8 = 80
   /\ fst (allocate 8 Scenario.S0) = inr 4104
   /\ totalAllocatedSize_ (snd (allocate 8 Scenario.S0)) = 128
   /\ sizeLimit_ (snd (allocate 8 Scenario.S0))
      < totalAllocatedSize_ (snd (allocate 8 Scenario.S0)))
  /\ (sizeLimit_ Scenario.T1 = 100
      /\ totalAllocatedSize_ Scenario.T1 = 100 - 10
      /\ allocSize_of Scenario.T1 1 = 9
      /\ fst (allocateSlow 1 Scenario.T1) = inr 4194
      /\ totalSize (snd (allocateSlow 1 Scenario.T1)) = 99
      /\ totalSize (snd (allocateSlow 1 Scenario.T1))
         <> sizeLimit_ Scenario.T1).
Proof. repeat split; by_evaluation. Qed.

(** C2 refuted as stated. After [A1.merge(B1)] the front element of the
    list is the block that came from [B1], at 131072, while [ptr]/[end] of
    the recipient still delimit its own block at 4096, now second in the
    list. *)
Lemma C2_counterexample :
  reachable Scenario.A2
  /\ blocks_ Scenario.A2
     = [mkBlock 131072 64 false; mkBlock 4096 64 false]
  /\ ptr_ Scenario.A2 = 4112
  /\ end_ Scenario.A2 = 4168
  /\ ptr_ Scenario.A2 <> nullptr
  /\ describes (mkBlock 4096 64 false)
               (ptr_ Scenario.A2) (end_ Scenario.A2)
  /\ ~ describes (mkBlock 131072 64 false)
                 (ptr_ Scenario.A2) (end_ Scenario.A2)
  /\ ~ window_is_front Scenario.A2.
Proof.
  split; [exact A2_reachable |].
  split; [reflexivity |]. split; [reflexivity |]. split; [reflexivity |].
  split; [by_evaluation |].
  split; [unfold describes; repeat split; by_evaluation |].
  split.
  - intros [_ He]. vm_compute in He. discriminate He.
  - intros [(Hp & _) | (b & rest & Hb & _ & _ & He)].
    + vm_compute in Hp. discriminate Hp.
    + vm_compute in Hb. injection Hb as <- _.
      vm_compute in He. discriminate He.
Qed.

(** C9 refuted as stated. On the same arena a request that overflows and a
    request that the limit refuses end in the very same result: the same
    exception, the same arena. *)
Lemma C9_counterexample :
  SizeT.max < allocSize_of Scenario.U1 SizeT.max
  /\ allocSize_of Scenario.U1 20 <= SizeT.max
  /\ limit_check_fails Scenario.U1 20 = true
  /\ fst (allocateSlow SizeT.max Scenario.U1) = inl std_bad_alloc
  /\ fst (allocateSlow 20 Scenario.U1) = inl std_bad_alloc
  /\ allocateSlow SizeT.max Scenario.U1 = allocateSlow 20 Scenario.U1.
Proof. repeat split; by_evaluation. Qed.

(** ** The theorems at concrete inputs *)

(** C1 on the plain heap: four allocations on a fresh arena of limit 100,
    and the request that brings [U1] from 90 to exactly 100 bytes. *)
Lemma C1_witness :
  no_slack Heap
  /\ 0 <= sizeof_Block
  /\ totalAllocatedSize_ (allocate_all [82; 1; 1; 7] Scenario.U0) <= 100
  /\ allocSize_of Scenario.U1 1 = 10
  /\ exists a',
       allocateSlow 1 Scenario.U1 = (inr (Block_start 4186), a')
       /\ totalSize a' = sizeLimit_ Scenario.U1.
Proof.
  assert (Hh : 0 <= sizeof_Block) by by_evaluation.
  destruct (C1_sizeLimit_respected_without_slack Heap_no_slack Hh)
    as [Hseq Hten].
  split; [exact Heap_no_slack |]. split; [exact Hh |].
  split.
  - apply (Hseq (mkHeap 4096 65536) 2 100 [82; 1; 1; 7]).
    + by_evaluation.
    + split; by_evaluation.
    + by_evaluation.
    + repeat constructor; by_evaluation.
  - split; [reflexivity |].
    destruct (Hten Scenario.U1 1 4186 (mkHeap 4196 65536))
      as (a' & Hrun & _ & _ & Hexact); try by_evaluation.
    exists a'. split; [exact Hrun | apply Hexact; reflexivity].
Defined.

(** C2 on the plain heap: [A1] has only allocated, [A2] has merged. *)
Lemma C2_witness :
  goodSize_sound Heap
  /\ 0 <= sizeof_Block
  /\ reachable_by_allocate Scenario.A1
  /\ reachable Scenario.A2
  /\ window_is_front Scenario.A1
  /\ window_is_normal_block Scenario.A2.
Proof.
  assert (Hh : 0 <= sizeof_Block) by by_evaluation.
  destruct (C2_window_describes_a_normal_block Heap_goodSize_sound Hh)
    as [Hfront Hnormal].
  split; [exact Heap_goodSize_sound |]. split; [exact Hh |].
  split; [exact A1_reachable_by_allocate |].
  split; [exact A2_reachable |].
  split.
  - apply Hfront. exact A1_reachable_by_allocate.
  - apply Hnormal. exact A2_reachable.
Defined.

(** C3 on [B1]: 16 bytes, then a big allocation of 100 bytes, then 24
    bytes. *)
Lemma C3_witness :
  0 <= sizeof_Block
  /\ passes_checks Scenario.B1 100
  /\ minBlockSize_ Scenario.B1 < 100
  /\ 0 <= minBlockSize_ Scenario.B1
  /\ alloc_allocate (sizeof_Block + 100) (alloc_ Scenario.B1)
     = (inr 131144, mkHeap 131252 196608)
  /\ (exists a',
         allocateSlow 100 Scenario.B1 = (inr (Block_start 131144), a')
         /\ blocks_ a' = blocks_ Scenario.B1 ++ [mkBlock 131144 100 true]
         /\ ptr_ a' = ptr_ Scenario.B1
         /\ end_ a' = end_ Scenario.B1)
  /\ fst (allocate 16 Scenario.B1) = inr 131088
  /\ fst (allocate 24
            (snd (allocateSlow 100 (snd (allocate 16 Scenario.B1)))))
     = inr (131088 + 16).
Proof.
  assert (Hh : 0 <= sizeof_Block) by by_evaluation.
  assert (Hp : passes_checks Scenario.B1 100)
    by (split; by_evaluation).
  assert (Hbig : minBlockSize_ Scenario.B1 < 100) by by_evaluation.
  assert (Hm : 0 <= minBlockSize_ Scenario.B1) by by_evaluation.
  assert (Hmem : alloc_allocate (sizeof_Block + 100) (alloc_ Scenario.B1)
                 = (inr 131144, mkHeap 131252 196608)) by reflexivity.
  destruct (C3_big_allocation_appends_and_keeps_window
              Scenario.B1 100 131144 (mkHeap 131252 196608)
              Hh Hp Hbig Hm Hmem) as (_ & Hrun & Hseq).
  repeat (split; [assumption |]).
  destruct (Hseq 16 24) as (H1 & _ & H2 & _); try by_evaluation.
  split; [exact H1 | exact H2].
Defined.

(** C4 on [A1] and [B1]. *)
Lemma C4_witness :
  SizeT.in_range (totalSize Scenario.A1 + totalSize Scenario.B1)
  /\ totalSize (fst (merge Scenario.A1 Scenario.B1))
     = totalSize Scenario.A1 + totalSize Scenario.B1
  /\ blocks_ (fst (merge Scenario.A1 Scenario.B1))
     = blocks_ Scenario.B1 ++ blocks_ Scenario.A1
  /\ totalSize (snd (merge Scenario.A1 Scenario.B1)) = 0.
Proof.
  assert (Hr : SizeT.in_range (totalSize Scenario.A1 + totalSize Scenario.B1))
    by (split; by_evaluation).
  destruct (C4_merge_splices_adds_and_resets Scenario.A1 Scenario.B1)
    as (Hb & _ & _ & Hsum & _ & _ & _ & _ & Hz & _).
  split; [exact Hr |].
  split; [exact (Hsum Hr) |].
  split; [exact Hb | exact Hz].
Defined.

(** C5 on [U1]: a request of [SIZE_MAX] bytes. *)
Lemma C5_witness :
  SizeT.max < Z.max SizeT.max (minBlockSize_ Scenario.U1) + sizeof_Block
  /\ fst (allocateSlow SizeT.max Scenario.U1) = inl std_bad_alloc
  /\ snd (allocateSlow SizeT.max Scenario.U1) = Scenario.U1.
Proof.
  assert (Hov : SizeT.max
                < Z.max SizeT.max (minBlockSize_ Scenario.U1) + sizeof_Block)
    by by_evaluation.
  destruct (C5_overflow_fails_with_arena_unchanged
              Scenario.U1 SizeT.max Hov) as (_ & Hthrow & Hsame & _).
  split; [exact Hov |]. split; [exact Hthrow | exact Hsame].
Defined.

(** C7 on [S0]: the block is asked at 128 bytes and has 120 usable. *)
Lemma C7_witness :
  goodSize_sound SlabHeap
  /\ 0 <= sizeof_Block
  /\ 0 <= minBlockSize_ Scenario.S0
  /\ passes_checks Scenario.S0 8
  /\ 8 <= minBlockSize_ Scenario.S0
  /\ alloc_allocate 128 (alloc_ Scenario.S0)
     = (inr 4096, mkSlabHeap (mkHeap 4224 65536))
  /\ exists a',
       allocateSlow 8 Scenario.S0 = (inr (Block_start 4096), a')
       /\ blocks_ a' = mkBlock 4096 120 false :: blocks_ Scenario.S0
       /\ ptr_ a' = Block_start 4096 + 8
       /\ end_ a' = Block_start 4096 + 120
       /\ totalAllocatedSize_ a' = totalAllocatedSize_ Scenario.S0 + 128.
Proof.
  assert (Hh : 0 <= sizeof_Block) by by_evaluation.
  assert (Hm : 0 <= minBlockSize_ Scenario.S0) by by_evaluation.
  assert (Hp : passes_checks Scenario.S0 8) by (split; by_evaluation).
  assert (Hsmall : 8 <= minBlockSize_ Scenario.S0) by by_evaluation.
  assert (Hmem : alloc_allocate 128 (alloc_ Scenario.S0)
                 = (inr 4096, mkSlabHeap (mkHeap 4224 65536)))
    by reflexivity.
  destruct (C7_normal_allocation_pushes_front_and_sets_window
              Scenario.S0 8 4096 (mkSlabHeap (mkHeap 4224 65536))
              SlabHeap_goodSize_sound Hh Hm Hp Hsmall Hmem)
    as (a' & Hrun & _ & Hb & Hptr & Hend & _ & Htot).
  repeat (split; [first [assumption | exact SlabHeap_goodSize_sound] |]).
  exists a'. repeat (split; [assumption |]).
  apply Htot. split; by_evaluation.
Defined.

(** C8 on [X0]: the allocator's own exception reaches the caller. *)
Lemma C8_witness :
  passes_checks Scenario.X0 8
  /\ alloc_allocate (backing_request Scenario.X0 8) (alloc_ Scenario.X0)
     = (inl (allocator_exception 12), mkSlabHeap (mkHeap 4096 4100))
  /\ allocateSlow 8 Scenario.X0
     = (inl (allocator_exception 12),
        set_alloc (mkSlabHeap (mkHeap 4096 4100)) Scenario.X0).
Proof.
  assert (Hp : passes_checks Scenario.X0 8) by (split; by_evaluation).
  assert (He : alloc_allocate (backing_request Scenario.X0 8)
                              (alloc_ Scenario.X0)
               = (inl (allocator_exception 12),
                  mkSlabHeap (mkHeap 4096 4100))) by reflexivity.
  destruct (C8_backing_failure_propagates_no_partial_mutation Scenario.X0 8)
    as [Hprop _].
  split; [exact Hp |]. split; [exact He |].
  exact (Hprop _ _ Hp He).
Defined.

(** C9 on [U1]: [SIZE_MAX] bytes overflow, 20 bytes exceed the limit. *)
Lemma C9_witness :
  SizeT.max < allocSize_of Scenario.U1 SizeT.max
  /\ allocSize_of Scenario.U1 20 <= SizeT.max
  /\ limit_check_fails Scenario.U1 20 = true
  /\ fst (allocateSlow SizeT.max Scenario.U1)
     = fst (allocateSlow 20 Scenario.U1).
Proof.
  assert (Hov : SizeT.max < allocSize_of Scenario.U1 SizeT.max)
    by by_evaluation.
  assert (Hfit : allocSize_of Scenario.U1 20 <= SizeT.max) by by_evaluation.
  assert (Hlim : limit_check_fails Scenario.U1 20 = true) by reflexivity.
  destruct (C9_overflow_and_limit_both_throw_bad_alloc
              Scenario.U1 Scenario.U1 SizeT.max 20 Hov Hfit Hlim)
    as (_ & _ & Hsame).
  repeat (split; [assumption |]). exact Hsame.
Defined.

(** C10 on [A1] and [B1]: 16 bytes after the merge. *)
Lemma C10_witness :
  ptr_ Scenario.A1 <> nullptr
  /\ 16 <= end_ Scenario.A1 - ptr_ Scenario.A1
  /\ ptr_ (fst (merge Scenario.A1 Scenario.B1)) = ptr_ Scenario.A1
  /\ end_ (fst (merge Scenario.A1 Scenario.B1)) = end_ Scenario.A1
  /\ fst (allocate 16 (fst (merge Scenario.A1 Scenario.B1)))
     = fst (allocate 16 Scenario.A1).
Proof.
  assert (Hnn : ptr_ Scenario.A1 <> nullptr) by by_evaluation.
  assert (Hfit : 16 <= end_ Scenario.A1 - ptr_ Scenario.A1) by by_evaluation.
  destruct (C10_merge_keeps_recipient_window Scenario.A1 Scenario.B1)
    as (Hptr & Hend & _ & Hfast).
  destruct (Hfast 16 Hnn Hfit) as [_ Hsame].
  repeat (split; [assumption |]). exact Hsame.
Defined.

(** * Further properties of the code *)

(** ** [Block::allocate] on its own *)

Section BlockAllocate.

Context {Alloc : Type} {traits : ArenaAllocatorTraits Alloc}.
Context {consts : ArenaConstants}.

Lemma wrap_minus_modulus (x : Z) :
  SizeT.wrap (x - SizeT.modulus) = SizeT.wrap x.
Proof.
  unfold SizeT.wrap.
  replace (x - SizeT.modulus) with (x + (-1) * SizeT.modulus) by ring.
  apply Z.mod_add. pose proof SizeTFacts.modulus_pos. lia.
Qed.

(** As long as [sizeof(Block) + size] is representable, [Block::allocate]
    asks the backing allocator once, for [sizeof(Block) + size] bytes or for
    the [goodSize] of that; if the allocator throws, so does the call, and
    otherwise the usable size returned is the request minus the header: at
    least [size], and [size] exactly when no slack is allowed. *)
Theorem Block_allocate_usable_covers_size
  (al : Alloc) (size : Z) (allowSlack : bool) :
  goodSize_sound Alloc ->
  0 <= size -> 0 <= sizeof_Block ->
  sizeof_Block + size <= SizeT.max ->
  let request :=
    if allowSlack then goodSize al (sizeof_Block + size)
    else sizeof_Block + size in
  match alloc_allocate request al with
  | (inl e, al') => Block_allocate size allowSlack al = (inl e, al')
  | (inr mem, al') =>
      Block_allocate size allowSlack al
      = (inr (mem, request - sizeof_Block), al')
      /\ size <= request - sizeof_Block
      /\ (allowSlack = false -> request - sizeof_Block = size)
  end.
Proof.
  intros Hgs Hs Hh Hfit request.
  assert (Hadd : SizeT.add sizeof_Block size = sizeof_Block + size)
    by (apply SizeTFacts.add_small; unfold SizeT.in_range; lia).
  assert (Hreq : sizeof_Block + size <= request <= SizeT.max).
  { unfold request. destruct allowSlack; [| lia].
    apply Hgs. unfold SizeT.in_range. lia. }
  assert (Hsub : SizeT.sub request sizeof_Block = request - sizeof_Block)
    by (apply SizeTFacts.sub_small; unfold SizeT.in_range; lia).
  unfold Block_allocate, bind, gets, ret. rewrite Hadd.
  destruct allowSlack; simpl; fold request;
    destruct (alloc_allocate request al) as [[e | mem] al'];
    try reflexivity; rewrite Hsub;
    (split; [reflexivity | split; [lia |]]).
  - discriminate.
  - intros _. unfold request. lia.
Qed.

(** [Block::allocate] adds without a check.  When [sizeof(Block) + size]
    does not fit [size_t] and no slack is asked, the backing allocator is
    asked for the wrapped sum, which is less than a header, and the call
    still reports [size] usable bytes. *)
Theorem Block_allocate_wraps_unchecked
  (al al' : Alloc) (size mem : Z) :
  SizeT.in_range size -> SizeT.in_range sizeof_Block ->
  SizeT.max < sizeof_Block + size ->
  alloc_allocate (sizeof_Block + size - SizeT.modulus) al = (inr mem, al') ->
  Block_allocate size false al = (inr (mem, size), al')
  /\ 0 <= sizeof_Block + size - SizeT.modulus < sizeof_Block.
Proof.
  intros [Hs0 Hs1] [Hh0 Hh1] Hov Hmem.
  assert (Hmod : SizeT.modulus = SizeT.max + 1) by (unfold SizeT.max; ring).
  assert (Hadd : SizeT.add sizeof_Block size
                 = sizeof_Block + size - SizeT.modulus).
  { unfold SizeT.add. rewrite <- wrap_minus_modulus.
    apply SizeTFacts.wrap_small. unfold SizeT.in_range. lia. }
  assert (Hsub : SizeT.sub (sizeof_Block + size - SizeT.modulus) sizeof_Block
                 = size).
  { unfold SizeT.sub.
    replace (sizeof_Block + size - SizeT.modulus - sizeof_Block)
      with (size - SizeT.modulus) by ring.
    rewrite wrap_minus_modulus.
    apply SizeTFacts.wrap_small. split; assumption. }
  split; [| lia].
  unfold Block_allocate, bind, ret. rewrite Hadd, Hmem, Hsub. reflexivity.
Qed.

(** The request of the slow path always has room for the header and for
    [size] bytes behind it. *)
Lemma backing_request_covers (a : Arena Alloc) (size : Z) :
  goodSize_sound Alloc ->
  0 <= sizeof_Block -> 0 <= minBlockSize_ a -> 0 <= size ->
  passes_checks a size ->
  sizeof_Block + size <= backing_request a size <= SizeT.max.
Proof.
  intros Hgs Hh Hm Hs [Hfit _]. unfold allocSize_of in Hfit.
  unfold backing_request.
  destruct (Z.ltb_spec (minBlockSize_ a) size) as [Hbig | Hsmall].
  - rewrite SizeTFacts.add_small by (unfold SizeT.in_range; lia). lia.
  - rewrite SizeTFacts.add_small by (unfold SizeT.in_range; lia).
    pose proof (Hgs (alloc_ a) (sizeof_Block + minBlockSize_ a)) as H.
    unfold SizeT.in_range in H. lia.
Qed.

(** Whenever [allocateSlow] returns, the [size] bytes at the returned
    address lie inside the memory the backing allocator gave for this call,
    behind the header: the check [assert(p.second >= size)] cannot fail. *)
Theorem allocateSlow_result_inside_acquired_memory
  (a a' : Arena Alloc) (size start : Z) :
  goodSize_sound Alloc ->
  0 <= sizeof_Block -> 0 <= minBlockSize_ a -> 0 <= size ->
  allocateSlow size a = (inr start, a') ->
  exists (mem : Z) (al' : Alloc),
    alloc_allocate (backing_request a size) (alloc_ a) = (inr mem, al')
    /\ start = mem + sizeof_Block
    /\ start + size <= mem + backing_request a size
    /\ size <= SizeT.sub (backing_request a size) sizeof_Block.
Proof.
  intros Hgs Hh Hm Hs Hrun.
  destruct (allocateSlow_cases a size) as [Hov | [[Hfit Hlim] | Hp]].
  - rewrite (allocateSlow_overflow a size Hov) in Hrun. discriminate.
  - rewrite (allocateSlow_limit a size Hfit Hlim) in Hrun. discriminate.
  - rewrite (allocateSlow_passes a size Hp) in Hrun.
    pose proof (backing_request_covers a size Hgs Hh Hm Hs Hp) as Hcov.
    destruct (alloc_allocate (backing_request a size) (alloc_ a))
      as [[e | mem] al']; [discriminate |].
    injection Hrun as Hstart _. exists mem, al'.
    split; [reflexivity |]. unfold Block_start in Hstart.
    split; [lia |]. split; [lia |].
    rewrite SizeTFacts.sub_small by (unfold SizeT.in_range; lia). lia.
Qed.

End BlockAllocate.

(** ** Accounting *)

Section AccountingFacts.

Context {Alloc : Type} {traits : ArenaAllocatorTraits Alloc}.
Context {consts : ArenaConstants}.

Lemma wrap_add_wrap (x y : Z) :
  SizeT.wrap (SizeT.wrap x + SizeT.wrap y) = SizeT.wrap (x + y).
Proof.
  unfold SizeT.wrap. symmetry. apply Z.add_mod.
  pose proof SizeTFacts.modulus_pos. lia.
Qed.

Lemma accounted_bytes_app (l1 l2 : list Block) :
  accounted_bytes (l1 ++ l2) = accounted_bytes l1 + accounted_bytes l2.
Proof.
  induction l1 as [| b l1 IH]; simpl; [reflexivity |].
  fold (accounted_bytes (l1 ++ l2)). fold (accounted_bytes l1).
  rewrite IH. ring.
Qed.

Lemma accounting_after_block (total usable sum : Z) :
  total = SizeT.wrap sum ->
  SizeT.add total (SizeT.add usable sizeof_Block)
  = SizeT.wrap (usable + sizeof_Block + sum).
Proof.
  intros ->. unfold SizeT.add. rewrite wrap_add_wrap. f_equal. ring.
Qed.

Lemma outcome_accounting (a a' : Arena Alloc) (size : Z) :
  allocate_outcome a size a' -> accounting_exact a -> accounting_exact a'.
Proof.
  unfold accounting_exact.
  intros [Hnn Hfit | al' | al' mem Hp Hbig | al' mem Hp Hsmall] Hacc;
    simpl; try exact Hacc.
  - rewrite accounted_bytes_app. simpl.
    rewrite (accounting_after_block _ _ _ Hacc). f_equal. ring.
  - fold (accounted_bytes (blocks_ a)).
    apply accounting_after_block. exact Hacc.
Qed.

Lemma merge_accounting (a b : Arena Alloc) :
  accounting_exact a -> accounting_exact b ->
  accounting_exact (fst (merge a b)) /\ accounting_exact (snd (merge a b)).
Proof.
  unfold accounting_exact. intros Ha Hb. rewrite merge_eq. simpl. split.
  - rewrite accounted_bytes_app, Ha, Hb. unfold SizeT.add.
    rewrite wrap_add_wrap. f_equal. ring.
  - reflexivity.
Qed.

(** [allocateSlow], whatever its outcome, and [merge], on both sides, keep
    [totalAllocatedSize_] equal to the [size_t] sum of usable size plus
    header over the blocks in the list. *)
Theorem accounting_kept_by_allocateSlow_and_merge
  (a b : Arena Alloc) (size : Z) :
  accounting_exact a -> accounting_exact b ->
  accounting_exact (snd (allocateSlow size a))
  /\ accounting_exact (fst (merge a b))
  /\ accounting_exact (snd (merge a b)).
Proof.
  intros Ha Hb. split.
  - exact (outcome_accounting _ _ _ (allocateSlow_outcome a size) Ha).
  - exact (merge_accounting a b Ha Hb).
Qed.

(** At every state an arena reaches through [allocate] and [merge],
    [totalAllocatedSize_] is the [size_t] sum of usable size plus header
    over the blocks it holds. *)
Theorem accounting_exact_when_reachable (a : Arena Alloc) :
  reachable a -> accounting_exact a.
Proof.
  induction 1 as [al mbs lim Hm | a size Hr IH Hs
                 | a b Hra IHa Hrb IHb | a b Hra IHa Hrb IHb].
  - reflexivity.
  - exact (outcome_accounting _ _ _ (allocate_has_outcome a size) IH).
  - exact (proj1 (merge_accounting a b IHa IHb)).
  - exact (proj2 (merge_accounting a b IHa IHb)).
Qed.

End AccountingFacts.

(** ** More on [merge] *)

Section MergeFacts.

Context {Alloc : Type}.

Lemma arena_eta (a : Arena Alloc) :
  mkArena (alloc_ a) (minBlockSize_ a) (blocks_ a) (ptr_ a) (end_ a)
          (totalAllocatedSize_ a) (sizeLimit_ a) = a.
Proof. destruct a; reflexivity. Qed.

(** Merging an arena that owns nothing changes nothing: the recipient is
    exactly as before.  In particular merging the same donor a second time
    has no effect. *)
Theorem merge_of_empty_donor_is_identity (a b : Arena Alloc) :
  (blocks_ b = [] -> totalAllocatedSize_ b = 0 ->
   SizeT.in_range (totalAllocatedSize_ a) ->
   fst (merge a b) = a)
  /\ fst (merge (fst (merge a b)) (snd (merge a b))) = fst (merge a b).
Proof.
  split.
  - intros Hb Ht Hr. rewrite merge_eq. simpl. rewrite Hb, Ht. simpl.
    unfold SizeT.add. rewrite Z.add_0_r.
    rewrite SizeTFacts.wrap_small by exact Hr. apply arena_eta.
  - rewrite !merge_eq. simpl. unfold SizeT.add.
    rewrite Z.add_0_r.
    rewrite (SizeTFacts.wrap_small (SizeT.wrap _))
      by apply SizeTFacts.wrap_range.
    reflexivity.
Qed.

(** Merging is associative for the recipient: [A.merge(B); A.merge(C)]
    leaves [A] as [B.merge(C); A.merge(B)] does. *)
Theorem merge_assoc (a b c : Arena Alloc) :
  fst (merge (fst (merge a b)) c) = fst (merge a (fst (merge b c))).
Proof.
  rewrite !merge_eq. simpl. f_equal.
  - apply app_assoc.
  - unfold SizeT.add, SizeT.wrap.
    pose proof SizeTFacts.modulus_pos.
    rewrite Zplus_mod_idemp_l, Zplus_mod_idemp_r. f_equal. ring.
Qed.

(** [merge] never looks at [sizeLimit_]: when the two totals add up to
    more than the recipient's limit, the recipient ends above its limit. *)
Theorem merge_can_exceed_sizeLimit (a b : Arena Alloc) :
  SizeT.in_range (totalAllocatedSize_ a + totalAllocatedSize_ b) ->
  sizeLimit_ a < totalAllocatedSize_ a + totalAllocatedSize_ b ->
  sizeLimit_ (fst (merge a b)) = sizeLimit_ a
  /\ totalAllocatedSize_ (fst (merge a b))
     = totalAllocatedSize_ a + totalAllocatedSize_ b
  /\ sizeLimit_ (fst (merge a b)) < totalAllocatedSize_ (fst (merge a b)).
Proof.
  intros Hr Hover. rewrite merge_eq. simpl.
  rewrite SizeTFacts.add_small by exact Hr. repeat split. exact Hover.
Qed.

End MergeFacts.

(** ** More on the limit guard *)

Section LimitFacts.

Context {Alloc : Type} {traits : ArenaAllocatorTraits Alloc}.
Context {consts : ArenaConstants}.

Lemma passes_reaches_allocator (a : Arena Alloc) (size mem : Z) (al' : Alloc) :
  passes_checks a size ->
  alloc_allocate (backing_request a size) (alloc_ a) = (inr mem, al') ->
  fst (allocateSlow size a) = inr (Block_start mem).
Proof.
  intros Hp Hmem. rewrite (allocateSlow_passes a size Hp), Hmem. reflexivity.
Qed.

(** The guard is exact at the boundary.  On an arena with a finite limit
    whose total is within it, a request that does not overflow is refused,
    the arena untouched, exactly when total plus [allocSize] is above the
    limit; a request that fills the limit to the last byte goes to the
    backing allocator. *)
Theorem limit_guard_is_exact_within_limit (a : Arena Alloc) (size : Z) :
  sizeLimit_ a <> kNoSizeLimit ->
  0 <= totalAllocatedSize_ a <= sizeLimit_ a ->
  sizeLimit_ a <= SizeT.max ->
  allocSize_of a size <= SizeT.max ->
  (sizeLimit_ a < totalAllocatedSize_ a + allocSize_of a size ->
   allocateSlow size a = (inl std_bad_alloc, a))
  /\ (totalAllocatedSize_ a + allocSize_of a size <= sizeLimit_ a ->
      forall (mem : Z) (al' : Alloc),
        alloc_allocate (backing_request a size) (alloc_ a) = (inr mem, al') ->
        fst (allocateSlow size a) = inr (Block_start mem)).
Proof.
  intros Hfin Htot Hlim Hfit.
  pose proof (limit_check_in_range a size Hfin Htot Hlim) as Hiff. split.
  - intros Hover. apply allocateSlow_limit; [exact Hfit |].
    apply Hiff. lia.
  - intros Hroom mem al' Hmem.
    apply (passes_reaches_allocator a size mem al'); [| exact Hmem].
    split; [exact Hfit |].
    destruct (limit_check_fails a size); [| reflexivity].
    assert (sizeLimit_ a - totalAllocatedSize_ a < allocSize_of a size)
      by (apply Hiff; reflexivity).
    lia.
Qed.

(** Once the total is above a finite limit the guard stops guarding: it
    refuses a request only when [allocSize] exceeds
    [2^64 - (total - limit)], and lets every smaller one through to the
    backing allocator. *)
Theorem limit_guard_wraps_above_limit (a : Arena Alloc) (size : Z) :
  sizeLimit_ a <> kNoSizeLimit ->
  SizeT.in_range (sizeLimit_ a) ->
  SizeT.in_range (totalAllocatedSize_ a) ->
  sizeLimit_ a < totalAllocatedSize_ a ->
  allocSize_of a size <= SizeT.max ->
  (allocSize_of a size
   <= SizeT.modulus - (totalAllocatedSize_ a - sizeLimit_ a) ->
   forall (mem : Z) (al' : Alloc),
     alloc_allocate (backing_request a size) (alloc_ a) = (inr mem, al') ->
     fst (allocateSlow size a) = inr (Block_start mem))
  /\ (SizeT.modulus - (totalAllocatedSize_ a - sizeLimit_ a)
      < allocSize_of a size ->
      allocateSlow size a = (inl std_bad_alloc, a)).
Proof.
  intros Hfin Hlim Htot Hover Hfit.
  pose proof (limit_check_once_exceeded a size Hfin Hlim Htot Hover) as Hiff.
  split.
  - intros Hsmall mem al' Hmem.
    apply (passes_reaches_allocator a size mem al'); [| exact Hmem].
    split; [exact Hfit |].
    destruct (limit_check_fails a size); [| reflexivity].
    assert (sizeLimit_ a - totalAllocatedSize_ a + SizeT.modulus
            < allocSize_of a size) by (apply Hiff; reflexivity).
    lia.
  - intros Hhuge. apply allocateSlow_limit; [exact Hfit |].
    apply Hiff. lia.
Qed.

(** An allocation can take the total above the limit only by the slack of
    the block it acquires.  From a total within a finite limit, a
    successful [allocateSlow] accounts the bytes asked from the backing
    allocator, and the new total is at most the limit plus the bytes that
    [goodSize] added; a big allocation, which gets no slack, stays within
    the limit. *)
Theorem limit_overshoot_is_at_most_the_slack
  (a a' : Arena Alloc) (size start : Z) :
  goodSize_sound Alloc ->
  0 <= sizeof_Block -> 0 <= minBlockSize_ a -> 0 <= size ->
  sizeLimit_ a <> kNoSizeLimit ->
  0 <= totalAllocatedSize_ a <= sizeLimit_ a ->
  sizeLimit_ a <= SizeT.max ->
  totalAllocatedSize_ a + backing_request a size <= SizeT.max ->
  allocateSlow size a = (inr start, a') ->
  totalAllocatedSize_ a'
  = totalAllocatedSize_ a + backing_request a size
  /\ totalAllocatedSize_ a'
     <= sizeLimit_ a + (backing_request a size - allocSize_of a size)
  /\ (minBlockSize_ a < size -> totalAllocatedSize_ a' <= sizeLimit_ a).
Proof.
  intros Hgs Hh Hm Hs Hfin Htot Hlim Hrep Hrun.
  destruct (allocateSlow_cases a size) as [Hov | [[Hfit Hl] | Hp]].
  - rewrite (allocateSlow_overflow a size Hov) in Hrun. discriminate.
  - rewrite (allocateSlow_limit a size Hfit Hl) in Hrun. discriminate.
  - pose proof (backing_request_covers a size Hgs Hh Hm Hs Hp) as Hcov.
    pose proof (passes_checks_within_limit a size Hfin Htot Hlim Hp) as Hle.
    rewrite (allocateSlow_passes a size Hp) in Hrun.
    destruct (alloc_allocate (backing_request a size) (alloc_ a))
      as [[e | mem] al']; [discriminate |].
    injection Hrun as _ Ha'.
    assert (Htotal : totalAllocatedSize_ a'
                     = totalAllocatedSize_ a + backing_request a size).
    { subst a'. cbv zeta.
      destruct (minBlockSize_ a <? size); simpl;
        rewrite SizeTFacts.sub_small by (unfold SizeT.in_range; lia);
        rewrite (SizeTFacts.add_small (_ - _))
          by (unfold SizeT.in_range; lia);
        rewrite SizeTFacts.add_small by (unfold SizeT.in_range; lia);
        lia. }
    split; [exact Htotal |]. split; [lia |].
    intros Hbig. rewrite Htotal.
    assert (Hreq : backing_request a size = allocSize_of a size).
    { unfold backing_request, allocSize_of.
      apply Z.ltb_lt in Hbig. rewrite Hbig. apply Z.ltb_lt in Hbig.
      rewrite SizeTFacts.add_small by (unfold SizeT.in_range; lia). lia. }
    lia.
Qed.

End LimitFacts.

(** ** Teardown *)

Section TeardownFacts.

Context {Alloc : Type} {release : ArenaAllocatorRelease Alloc}.

Lemma destructor_loop_enough (fuel : nat) :
  forall a : Arena Alloc,
    (length (blocks_ a) <= fuel)%nat ->
    destructor_loop fuel a = Some (torn_down a).
Proof.
  induction fuel as [| fuel IH]; intros [al mbs bs p e t lim] Hlen;
    destruct bs as [| b rest]; simpl in *; try reflexivity.
  - inversion Hlen.
  - rewrite IH by (simpl; apply le_S_n; exact Hlen). reflexivity.
Qed.

Lemma destructor_loop_short (fuel : nat) :
  forall a : Arena Alloc,
    (fuel < length (blocks_ a))%nat ->
    destructor_loop fuel a = None.
Proof.
  induction fuel as [| fuel IH]; intros [al mbs bs p e t lim] Hlen;
    destruct bs as [| b rest]; simpl in *;
    try (inversion Hlen; fail); try reflexivity.
  apply IH. simpl. apply PeanoNat.lt_S_n. exact Hlen.
Qed.

(** The loop of [~Arena] comes to its end after exactly as many iterations
    as there are blocks.  It leaves the list empty, has passed every block
    of the list to [deallocate] once, front to back and always with count
    [1], and has not touched [ptr_], [end_] or [totalAllocatedSize_]. *)
Theorem destructor_disposes_every_block_once (a : Arena Alloc) (fuel : nat) :
  ((length (blocks_ a) <= fuel)%nat ->
   destructor_loop fuel a
   = Some (mkArena
             (fold_left (fun al b => alloc_deallocate (block_addr b) 1 al)
                        (blocks_ a) (alloc_ a))
             (minBlockSize_ a) [] (ptr_ a) (end_ a)
             (totalAllocatedSize_ a) (sizeLimit_ a)))
  /\ ((fuel < length (blocks_ a))%nat -> destructor_loop fuel a = None).
Proof.
  split.
  - apply destructor_loop_enough.
  - apply destructor_loop_short.
Qed.

(** After [A.merge(B)] the destructor of [B] gives nothing back, and the
    destructor of [A] gives back the former blocks of [B], then those of
    [A], all through the allocator of [A]. *)
Theorem destructors_after_merge (a b : Arena Alloc) :
  destructor_loop 0 (snd (merge a b)) = Some (snd (merge a b))
  /\ alloc_ (snd (merge a b)) = alloc_ b
  /\ exists a',
       destructor_loop (length (blocks_ b) + length (blocks_ a))
                       (fst (merge a b)) = Some a'
       /\ blocks_ a' = []
       /\ alloc_ a'
          = release_all (blocks_ a) (release_all (blocks_ b) (alloc_ a)).
Proof.
  rewrite merge_eq. simpl. split; [reflexivity |]. split; [reflexivity |].
  eexists. split.
  - apply destructor_loop_enough. simpl. rewrite length_app. apply le_n.
  - unfold torn_down, release_all. simpl. split; [reflexivity |].
    apply fold_left_app.
Qed.

End TeardownFacts.

(** ** Allocation and teardown against the books of the allocator *)

Section LedgerFacts.

Context {consts : ArenaConstants}.

Lemma remove_one_perm (p : Z) (l : list Z) :
  In p l -> Permutation l (p :: remove_one p l).
Proof.
  induction l as [| x rest IH]; simpl; [contradiction |].
  intros Hin. destruct (Z.eqb_spec x p) as [-> | Hne].
  - apply Permutation_refl.
  - destruct Hin as [Heq | Hin]; [contradiction |].
    apply perm_trans with (x :: p :: remove_one p rest).
    + apply perm_skip. apply IH. exact Hin.
    + apply perm_swap.
Qed.

Lemma release_all_clears_books (bs : list Block) :
  forall g : Ledger,
    Permutation (ledger_live g) (map block_addr bs) ->
    ledger_live (release_all bs g) = []
    /\ ledger_released (release_all bs g)
       = ledger_released g ++ map (fun b => (block_addr b, 1)) bs.
Proof.
  induction bs as [| b rest IH]; intros g Hperm.
  - simpl. split.
    + apply Permutation_nil. apply Permutation_sym. exact Hperm.
    + symmetry. apply app_nil_r.
  - simpl in Hperm.
    assert (Hin : In (block_addr b) (ledger_live g)).
    { apply (Permutation_in _ (Permutation_sym Hperm)). left. reflexivity. }
    assert (Hrest : Permutation (remove_one (block_addr b) (ledger_live g))
                                (map block_addr rest)).
    { apply Permutation_cons_inv with (a := block_addr b).
      apply perm_trans with (ledger_live g); [| exact Hperm].
      apply Permutation_sym. apply remove_one_perm. exact Hin. }
    change (release_all (b :: rest) g)
      with (release_all rest (ledger_deallocate (block_addr b) 1 g)).
    destruct (IH (ledger_deallocate (block_addr b) 1 g) Hrest) as [Hl Hr].
    split; [exact Hl |].
    rewrite Hr. simpl. rewrite <- app_assoc. reflexivity.
Qed.

Lemma allocateSlow_keeps_books (a : Arena Ledger) (size : Z) :
  books_balanced a -> books_balanced (snd (allocateSlow size a)).
Proof.
  intros [Hperm Hrel].
  destruct (allocateSlow_cases a size) as [Hov | [[Hfit Hlim] | Hp]].
  - rewrite (allocateSlow_overflow a size Hov). split; assumption.
  - rewrite (allocateSlow_limit a size Hfit Hlim). split; assumption.
  - rewrite (allocateSlow_passes a size Hp).
    simpl. unfold ledger_allocate.
    destruct (heap_allocate (backing_request a size) (ledger_heap (alloc_ a)))
      as [[e | mem] h]; simpl.
    + split; assumption.
    + destruct (minBlockSize_ a <? size); split; simpl; try exact Hrel.
      * rewrite map_app. simpl.
        apply perm_trans with (mem :: map block_addr (blocks_ a)).
        -- apply perm_skip. exact Hperm.
        -- apply Permutation_cons_append.
      * apply perm_skip. exact Hperm.
Qed.

Lemma allocate_keeps_books (a : Arena Ledger) (size : Z) :
  books_balanced a -> books_balanced (snd (allocate size a)).
Proof.
  intros Hb.
  destruct (allocate_fast_or_slow a size) as [[Hnn Hfit] | Hslow].
  - rewrite (allocate_fast a size Hnn Hfit). exact Hb.
  - rewrite (allocate_slow a size Hslow).
    apply allocateSlow_keeps_books. exact Hb.
Qed.

Lemma allocate_all_keeps_books (sizes : list Z) :
  forall a : Arena Ledger,
    books_balanced a -> books_balanced (allocate_all sizes a).
Proof.
  induction sizes as [| size rest IH]; intros a Hb; simpl.
  - exact Hb.
  - apply IH. apply allocate_keeps_books. exact Hb.
Qed.

(** On an allocator that keeps books, an arena gives back all it took.
    After any sequence of [allocate] calls on a fresh arena, the addresses
    the allocator has out are exactly the blocks of the list; the
    destructor then leaves none out, with one [deallocate] call per block,
    in list order. *)
Theorem ledger_arena_gives_back_all_it_took
  (h : Heap) (minBlockSize sizeLimit : Z) (sizes : list Z) :
  let a :=
    allocate_all sizes
      (new_Arena (mkLedger h [] []) minBlockSize sizeLimit) in
  Permutation (ledger_live (alloc_ a)) (map block_addr (blocks_ a))
  /\ exists a',
       destructor_loop (length (blocks_ a)) a = Some a'
       /\ blocks_ a' = []
       /\ ledger_live (alloc_ a') = []
       /\ ledger_released (alloc_ a')
          = map (fun b => (block_addr b, 1)) (blocks_ a).
Proof.
  intros a.
  assert (Hb : books_balanced a).
  { apply allocate_all_keeps_books. split; [apply perm_nil | reflexivity]. }
  destruct Hb as [Hperm Hrel]. split; [exact Hperm |].
  exists (torn_down a). split.
  - apply destructor_loop_enough. apply le_n.
  - split; [reflexivity |]. simpl.
    destruct (release_all_clears_books (blocks_ a) (alloc_ a) Hperm)
      as [Hl Hr].
    split; [exact Hl |]. rewrite Hr, Hrel. reflexivity.
Qed.

End LedgerFacts.

(** ** The further properties at concrete inputs *)

(** [Block::allocate] with slack on the size-class allocator: 72 bytes are
    asked, 128 requested, 120 usable. *)
Lemma Block_allocate_usable_covers_size_witness :
  goodSize_sound SlabHeap
  /\ 0 <= 72 /\ 0 <= sizeof_Block /\ sizeof_Block + 72 <= SizeT.max
  /\ Block_allocate 72 true (mkSlabHeap (mkHeap 4096 65536))
     = (inr (4096, 128 - sizeof_Block), mkSlabHeap (mkHeap 4224 65536))
  /\ 72 <= 128 - sizeof_Block.
Proof.
  assert (Hs : 0 <= 72) by by_evaluation.
  assert (Hh : 0 <= sizeof_Block) by by_evaluation.
  assert (Hfit : sizeof_Block + 72 <= SizeT.max) by by_evaluation.
  pose proof (Block_allocate_usable_covers_size
                (mkSlabHeap (mkHeap 4096 65536)) 72 true
                SlabHeap_goodSize_sound Hs Hh Hfit) as H.
  destruct H as (Hrun & Hge & _).
  repeat (split; [first [assumption | exact SlabHeap_goodSize_sound] |]).
  exact Hge.
Defined.

(** [Block::allocate] asked for [SIZE_MAX - 3] bytes with an 8-byte header:
    4 bytes are requested. *)
Lemma Block_allocate_wraps_unchecked_witness :
  SizeT.in_range (SizeT.max - 3)
  /\ SizeT.in_range sizeof_Block
  /\ SizeT.max < sizeof_Block + (SizeT.max - 3)
  /\ alloc_allocate (sizeof_Block + (SizeT.max - 3) - SizeT.modulus)
                    (mkHeap 4096 65536)
     = (inr 4096, mkHeap 4100 65536)
  /\ Block_allocate (SizeT.max - 3) false (mkHeap 4096 65536)
     = (inr (4096, SizeT.max - 3), mkHeap 4100 65536).
Proof.
  assert (Hs : SizeT.in_range (SizeT.max - 3)) by (split; by_evaluation).
  assert (Hh : SizeT.in_range sizeof_Block) by (split; by_evaluation).
  assert (Hov : SizeT.max < sizeof_Block + (SizeT.max - 3)) by by_evaluation.
  assert (Hmem : alloc_allocate
                   (sizeof_Block + (SizeT.max - 3) - SizeT.modulus)
                   (mkHeap 4096 65536)
                 = (inr 4096, mkHeap 4100 65536)) by reflexivity.
  destruct (Block_allocate_wraps_unchecked
              (mkHeap 4096 65536) (mkHeap 4100 65536) (SizeT.max - 3) 4096
              Hs Hh Hov Hmem) as [Hrun _].
  repeat (split; [assumption |]). exact Hrun.
Defined.

(** [allocateSlow(8)] on [S0]: the 8 bytes at 4104 lie inside the 128
    bytes at 4096. *)
Lemma allocateSlow_result_inside_acquired_memory_witness :
  goodSize_sound SlabHeap
  /\ 0 <= sizeof_Block /\ 0 <= minBlockSize_ Scenario.S0 /\ 0 <= 8
  /\ fst (allocateSlow 8 Scenario.S0) = inr 4104
  /\ exists mem al',
       alloc_allocate (backing_request Scenario.S0 8) (alloc_ Scenario.S0)
       = (inr mem, al')
       /\ 4104 = mem + sizeof_Block
       /\ 4104 + 8 <= mem + backing_request Scenario.S0 8.
Proof.
  assert (Hh : 0 <= sizeof_Block) by by_evaluation.
  assert (Hm : 0 <= minBlockSize_ Scenario.S0) by by_evaluation.
  assert (Hs : 0 <= 8) by by_evaluation.
  assert (Hrun : allocateSlow 8 Scenario.S0
                 = (inr 4104, snd (allocateSlow 8 Scenario.S0)))
    by reflexivity.
  destruct (allocateSlow_result_inside_acquired_memory
              Scenario.S0 _ 8 4104 SlabHeap_goodSize_sound Hh Hm Hs Hrun)
    as (mem & al' & Hmem & Hstart & Hin & _).
  repeat (split; [first [assumption | exact SlabHeap_goodSize_sound] |]).
  split; [reflexivity |].
  exists mem, al'. repeat (split; [assumption |]). exact Hin.
Defined.

Lemma A1_accounting_exact : accounting_exact Scenario.A1.
Proof. reflexivity. Qed.

Lemma B1_accounting_exact : accounting_exact Scenario.B1.
Proof. reflexivity. Qed.

(** The accounting on [A1] and [B1]. *)
Lemma accounting_kept_by_allocateSlow_and_merge_witness :
  accounting_exact Scenario.A1
  /\ accounting_exact Scenario.B1
  /\ accounting_exact (snd (allocateSlow 60 Scenario.A1))
  /\ accounting_exact (fst (merge Scenario.A1 Scenario.B1)).
Proof.
  destruct (accounting_kept_by_allocateSlow_and_merge
              Scenario.A1 Scenario.B1 60
              A1_accounting_exact B1_accounting_exact) as (Hs & Hm & _).
  split; [exact A1_accounting_exact |].
  split; [exact B1_accounting_exact |].
  split; [exact Hs | exact Hm].
Defined.

Lemma accounting_exact_when_reachable_witness :
  reachable Scenario.A2 /\ accounting_exact Scenario.A2.
Proof.
  split; [exact A2_reachable |].
  exact (accounting_exact_when_reachable Scenario.A2 A2_reachable).
Defined.

(** Merging the fresh arena [B0] into [A1]. *)
Lemma merge_of_empty_donor_is_identity_witness :
  blocks_ Scenario.B0 = []
  /\ totalAllocatedSize_ Scenario.B0 = 0
  /\ SizeT.in_range (totalAllocatedSize_ Scenario.A1)
  /\ fst (merge Scenario.A1 Scenario.B0) = Scenario.A1.
Proof.
  assert (Hb : blocks_ Scenario.B0 = []) by reflexivity.
  assert (Ht : totalAllocatedSize_ Scenario.B0 = 0) by reflexivity.
  assert (Hr : SizeT.in_range (totalAllocatedSize_ Scenario.A1))
    by (split; by_evaluation).
  destruct (merge_of_empty_donor_is_identity Scenario.A1 Scenario.B0)
    as [Hid _].
  repeat (split; [assumption |]). exact (Hid Hb Ht Hr).
Defined.

(** [A1.merge(B1)]: 72 + 72 bytes against a limit of 100. *)
Lemma merge_can_exceed_sizeLimit_witness :
  SizeT.in_range (totalAllocatedSize_ Scenario.A1
                  + totalAllocatedSize_ Scenario.B1)
  /\ sizeLimit_ Scenario.A1
     < totalAllocatedSize_ Scenario.A1 + totalAllocatedSize_ Scenario.B1
  /\ sizeLimit_ (fst (merge Scenario.A1 Scenario.B1))
     < totalAllocatedSize_ (fst (merge Scenario.A1 Scenario.B1)).
Proof.
  assert (Hr : SizeT.in_range (totalAllocatedSize_ Scenario.A1
                               + totalAllocatedSize_ Scenario.B1))
    by (split; by_evaluation).
  assert (Hover : sizeLimit_ Scenario.A1
                  < totalAllocatedSize_ Scenario.A1
                    + totalAllocatedSize_ Scenario.B1) by by_evaluation.
  destruct (merge_can_exceed_sizeLimit Scenario.A1 Scenario.B1 Hr Hover)
    as (_ & _ & Hlt).
  split; [exact Hr |]. split; [exact Hover | exact Hlt].
Defined.

(** On [U1], 90 bytes of 100 accounted: a block of 10 bytes is let
    through, a block of 28 bytes is refused. *)
Lemma limit_guard_is_exact_within_limit_witness :
  sizeLimit_ Scenario.U1 <> kNoSizeLimit
  /\ 0 <= totalAllocatedSize_ Scenario.U1 <= sizeLimit_ Scenario.U1
  /\ sizeLimit_ Scenario.U1 <= SizeT.max
  /\ totalAllocatedSize_ Scenario.U1 + allocSize_of Scenario.U1 1
     <= sizeLimit_ Scenario.U1
  /\ sizeLimit_ Scenario.U1
     < totalAllocatedSize_ Scenario.U1 + allocSize_of Scenario.U1 20
  /\ fst (allocateSlow 1 Scenario.U1) = inr (Block_start 4186)
  /\ allocateSlow 20 Scenario.U1 = (inl std_bad_alloc, Scenario.U1).
Proof.
  assert (Hfin : sizeLimit_ Scenario.U1 <> kNoSizeLimit) by by_evaluation.
  assert (Htot : 0 <= totalAllocatedSize_ Scenario.U1
                 <= sizeLimit_ Scenario.U1) by (split; by_evaluation).
  assert (Hlim : sizeLimit_ Scenario.U1 <= SizeT.max) by by_evaluation.
  assert (Hroom : totalAllocatedSize_ Scenario.U1 + allocSize_of Scenario.U1 1
                  <= sizeLimit_ Scenario.U1) by by_evaluation.
  assert (Hover : sizeLimit_ Scenario.U1
                  < totalAllocatedSize_ Scenario.U1
                    + allocSize_of Scenario.U1 20) by by_evaluation.
  assert (Hfit1 : allocSize_of Scenario.U1 1 <= SizeT.max) by by_evaluation.
  assert (Hfit20 : allocSize_of Scenario.U1 20 <= SizeT.max)
    by by_evaluation.
  destruct (limit_guard_is_exact_within_limit Scenario.U1 1
              Hfin Htot Hlim Hfit1) as [_ Hpass].
  destruct (limit_guard_is_exact_within_limit Scenario.U1 20
              Hfin Htot Hlim Hfit20) as [Hrefuse _].
  repeat (split; [assumption |]).
  split.
  - apply (Hpass Hroom 4186 (mkHeap 4196 65536)). reflexivity.
  - exact (Hrefuse Hover).
Defined.

(** On [A2], 144 bytes against a limit of 100, a block of 72 bytes is let
    through; on [W0], [SIZE_MAX] bytes against a limit of 100, a block of
    208 bytes is refused. *)
Lemma limit_guard_wraps_above_limit_witness :
  sizeLimit_ Scenario.A2 < totalAllocatedSize_ Scenario.A2
  /\ allocSize_of Scenario.A2 60
     <= SizeT.modulus
        - (totalAllocatedSize_ Scenario.A2 - sizeLimit_ Scenario.A2)
  /\ fst (allocateSlow 60 Scenario.A2) = inr (Block_start 4168)
  /\ sizeLimit_ MoreScenarios.W0 < totalAllocatedSize_ MoreScenarios.W0
  /\ SizeT.modulus
     - (totalAllocatedSize_ MoreScenarios.W0 - sizeLimit_ MoreScenarios.W0)
     < allocSize_of MoreScenarios.W0 200
  /\ allocateSlow 200 MoreScenarios.W0 = (inl std_bad_alloc, MoreScenarios.W0).
Proof.
  assert (HfinA : sizeLimit_ Scenario.A2 <> kNoSizeLimit) by by_evaluation.
  assert (HlimA : SizeT.in_range (sizeLimit_ Scenario.A2))
    by (split; by_evaluation).
  assert (HtotA : SizeT.in_range (totalAllocatedSize_ Scenario.A2))
    by (split; by_evaluation).
  assert (HoverA : sizeLimit_ Scenario.A2 < totalAllocatedSize_ Scenario.A2)
    by by_evaluation.
  assert (HfitA : allocSize_of Scenario.A2 60 <= SizeT.max) by by_evaluation.
  assert (HsmallA : allocSize_of Scenario.A2 60
                    <= SizeT.modulus
                       - (totalAllocatedSize_ Scenario.A2
                          - sizeLimit_ Scenario.A2)) by by_evaluation.
  assert (HfinW : sizeLimit_ MoreScenarios.W0 <> kNoSizeLimit) by by_evaluation.
  assert (HlimW : SizeT.in_range (sizeLimit_ MoreScenarios.W0))
    by (split; by_evaluation).
  assert (HtotW : SizeT.in_range (totalAllocatedSize_ MoreScenarios.W0))
    by (split; by_evaluation).
  assert (HoverW : sizeLimit_ MoreScenarios.W0 < totalAllocatedSize_ MoreScenarios.W0)
    by by_evaluation.
  assert (HfitW : allocSize_of MoreScenarios.W0 200 <= SizeT.max)
    by by_evaluation.
  assert (HhugeW : SizeT.modulus
                   - (totalAllocatedSize_ MoreScenarios.W0
                      - sizeLimit_ MoreScenarios.W0)
                   < allocSize_of MoreScenarios.W0 200) by by_evaluation.
  destruct (limit_guard_wraps_above_limit Scenario.A2 60
              HfinA HlimA HtotA HoverA HfitA) as [Hpass _].
  destruct (limit_guard_wraps_above_limit MoreScenarios.W0 200
              HfinW HlimW HtotW HoverW HfitW) as [_ Hrefuse].
  split; [exact HoverA |]. split; [exact HsmallA |].
  split; [apply (Hpass HsmallA 4168 (mkHeap 4240 65536)); reflexivity |].
  split; [exact HoverW |]. split; [exact HhugeW |].
  exact (Hrefuse HhugeW).
Defined.

(** [allocateSlow(8)] on [S0]: checked at 80 bytes, 128 accounted, 28 above
    the limit of 100 and within the 48 bytes of slack. *)
Lemma limit_overshoot_is_at_most_the_slack_witness :
  goodSize_sound SlabHeap
  /\ sizeLimit_ Scenario.S0 <> kNoSizeLimit
  /\ 0 <= totalAllocatedSize_ Scenario.S0 <= sizeLimit_ Scenario.S0
  /\ totalAllocatedSize_ Scenario.S0 + backing_request Scenario.S0 8
     <= SizeT.max
  /\ fst (allocateSlow 8 Scenario.S0) = inr 4104
  /\ totalAllocatedSize_ (snd (allocateSlow 8 Scenario.S0)) = 128
  /\ totalAllocatedSize_ (snd (allocateSlow 8 Scenario.S0))
     <= sizeLimit_ Scenario.S0
        + (backing_request Scenario.S0 8 - allocSize_of Scenario.S0 8).
Proof.
  assert (Hh : 0 <= sizeof_Block) by by_evaluation.
  assert (Hm : 0 <= minBlockSize_ Scenario.S0) by by_evaluation.
  assert (Hs : 0 <= 8) by by_evaluation.
  assert (Hfin : sizeLimit_ Scenario.S0 <> kNoSizeLimit) by by_evaluation.
  assert (Htot : 0 <= totalAllocatedSize_ Scenario.S0
                 <= sizeLimit_ Scenario.S0) by (split; by_evaluation).
  assert (Hlim : sizeLimit_ Scenario.S0 <= SizeT.max) by by_evaluation.
  assert (Hrep : totalAllocatedSize_ Scenario.S0
                 + backing_request Scenario.S0 8 <= SizeT.max)
    by by_evaluation.
  assert (Hrun : allocateSlow 8 Scenario.S0
                 = (inr 4104, snd (allocateSlow 8 Scenario.S0)))
    by reflexivity.
  destruct (limit_overshoot_is_at_most_the_slack
              Scenario.S0 _ 8 4104 SlabHeap_goodSize_sound
              Hh Hm Hs Hfin Htot Hlim Hrep Hrun) as (Htotal & Hbound & _).
  split; [exact SlabHeap_goodSize_sound |].
  repeat (split; [assumption |]).
  split; [reflexivity |]. split; [exact Htotal | exact Hbound].
Defined.

(** The destructor on [L1], which holds two blocks: two iterations end the
    loop, one does not. *)
Lemma destructor_disposes_every_block_once_witness :
  (length (blocks_ MoreScenarios.L1) <= 2)%nat
  /\ (1 < length (blocks_ MoreScenarios.L1))%nat
  /\ (exists a',
         destructor_loop 2 MoreScenarios.L1 = Some a'
         /\ blocks_ a' = []
         /\ ledger_released (alloc_ a') = [(4096, 1); (4168, 1)])
  /\ destructor_loop 1 MoreScenarios.L1 = None.
Proof.
  assert (Hle : (length (blocks_ MoreScenarios.L1) <= 2)%nat) by apply le_n.
  assert (Hlt : (1 < length (blocks_ MoreScenarios.L1))%nat) by apply le_n.
  destruct (destructor_disposes_every_block_once MoreScenarios.L1 2)
    as [Hdone _].
  destruct (destructor_disposes_every_block_once MoreScenarios.L1 1)
    as [_ Hshort].
  split; [exact Hle |]. split; [exact Hlt |].
  split.
  - eexists. split; [exact (Hdone Hle) |]. split; reflexivity.
  - exact (Hshort Hlt).
Defined.
